(** * InstrumentChanger: note synthesis ([instrument.py])

    A shallow embedding of the three synthesized instruments of
    [instrument.py] ([Beep], [AcousticGuitar], [Trumpet]) and of the stereo
    packaging of [Instrument], with the properties of their specification.

    Calls are functions into [Result]: they return, raise a Python exception
    or block.  The global random source of [np.random] is a state passed to
    [getNote] and returned by it.

    Python's floating-point numbers are a parameter of the development: the
    code is written once over an interface [Arith] of the arithmetic it uses
    ([Trig] for the sine, [Single] for the cast to single precision), and
    read in two ways.
    - [float]: IEEE 754 double precision, the numbers Python computes with
      (Rocq's primitive floats, with the cast to single precision of
      [SpecFloat]).  It has no sine.
    - [R]: exact real arithmetic, the idealisation in which no operation on
      doubles rounds; the claims about the values of samples are settled
      there.  It has no single-precision format: [np.float32] is an operation
      of the code, not a rounding that the idealisation removes.
    A theorem stated over an arbitrary arithmetic holds in both. *)

From Stdlib Require Import ZArith QArith Qreals Reals Lra Lia.
From Stdlib Require Import Floats.PrimFloat Floats.SpecFloat Floats.FloatOps.
From stdpp Require Import base decidable option list.

Set Default Proof Using "Type*".

(** ** Outcomes of a call *)

(** The Python exceptions the code can raise. *)
Inductive Exn : Set :=
| ZeroDivisionError
| IndexError
| ValueError
| OverflowError.

(** A call returns a value, raises, or blocks for ever (a [queue.Queue]
    operation that waits on a queue nobody else touches). *)
Inductive Result (A : Type) : Type :=
| Ok (a : A)
| Raise (e : Exn)
| Blocks.
Arguments Ok {A} a.
Arguments Raise {A} e.
Arguments Blocks {A}.

#[global] Instance Result_ret : MRet Result := @Ok.
#[global] Instance Result_bind : MBind Result := λ A B f m,
  match m with
  | Ok a => f a
  | Raise e => Raise e
  | Blocks => Blocks
  end.

(** [for x in xs: s = body(x, s)] *)
Fixpoint for_ {A S : Type} (xs : list A) (body : A → S → Result S) (s : S)
  : Result S :=
  match xs with
  | [] => Ok s
  | x :: xs => s' ← body x s; for_ xs body s'
  end.

(** [range(lo, hi)] for a non-negative [lo]. *)
Definition range (lo : nat) (hi : Z) : list nat := seq lo (Z.to_nat hi - lo).

(** [l[i]] and [l[i] = x] for an index [i >= 0]: out of range they raise. *)
Definition getitem {A : Type} (l : list A) (i : nat) : Result A :=
  match l !! i with
  | Some x => Ok x
  | None => Raise IndexError
  end.

Definition setitem {A : Type} (l : list A) (i : nat) (x : A) : Result (list A) :=
  if decide (i < length l) then Ok (<[i := x]> l) else Raise IndexError.

(** ** The arithmetic of the code *)

Declare Scope F_scope.
Delimit Scope F_scope with fl.

Class Arith (F : Type) : Type := {
  (** an [int] used where a float is expected *)
  of_int : Z → F;
  (** a decimal literal of the source, such as [0.999] *)
  of_Q : Q → F;
  fadd : F → F → F;
  fsub : F → F → F;
  fmul : F → F → F;
  fdiv : F → F → F;
  (** [x == 0], the test Python's division makes on its divisor *)
  is_zero : F → bool;
  (** [int(x)]: truncation toward zero; an infinity raises
      [OverflowError] and a NaN [ValueError] *)
  int : F → Result Z;
}.

(** [np.sin] on one sample and [np.pi]. *)
Class Trig (F : Type) : Type := {
  fsin : F → F;
  fpi : F;
}.

(** [np.float32]: the cast to single precision. *)
Class Single (F : Type) : Type := {
  float32 : F → F;
}.

Notation "x + y" := (fadd x y) : F_scope.
Notation "x - y" := (fsub x y) : F_scope.
Notation "x * y" := (fmul x y) : F_scope.
Notation "x / y" := (fdiv x y) : F_scope.

Section Scalars.
Context {F : Type} `{Arith F}.

(** [x / y] on Python numbers. *)
Definition truediv (x y : F) : Result F :=
  if is_zero y then Raise ZeroDivisionError else Ok (x / y)%fl.

(** [x / n] for an [int] divisor [n], which Python converts to a float.
    (Where [x] is an [int] too, Python rounds the exact quotient once: the
    same number as long as both integers are doubles, up to [2 ^ 53].) *)
Definition truediv_int (x : F) (n : Z) : Result F :=
  if (n =? 0)%Z then Raise ZeroDivisionError else Ok (x / of_int n)%fl.

End Scalars.

(** ** The numpy operations the code calls

    numpy is not part of the repository: its operations are modelled from
    their documentation, on lists. *)

Module np.
Section Numpy.
Context {F : Type} `{Arith F}.

(** [np.arange(0, num)] as floats. *)
Definition arange (num : nat) : list F :=
  (λ i, of_int (Z.of_nat i)) <$> seq 0 num.

(** [np.linspace(start, stop, num)], with its default [endpoint=True]:
    [num] samples [start + i * step] with [step = (stop - start) / (num - 1)],
    the last one set to [stop]; a negative [num] is refused.  When the step
    comes out as 0 (a difference so small that the quotient underflows),
    numpy divides the indices first and multiplies by the difference. *)
Definition linspace (start stop : F) (num : Z) : Result (list F) :=
  if (num <? 0)%Z then Raise ValueError else
  let n := Z.to_nat num in
  let div := (num - 1)%Z in
  let delta := (stop - start)%fl in
  let y := arange n in
  let y := if (0 <? div)%Z
           then let step := (delta / of_int div)%fl in
                if is_zero step
                then (λ yi, yi / of_int div * delta)%fl <$> y
                else (λ yi, yi * step)%fl <$> y
           else (λ yi, yi * delta)%fl <$> y in
  let y := (λ yi, yi + start)%fl <$> y in
  Ok (if (1 <? num)%Z then <[pred n := stop]> y else y).

(** [np.full(n, v)] and [np.zeros(n)] *)
Definition full (n : Z) (v : F) : Result (list F) :=
  if (n <? 0)%Z then Raise ValueError else Ok (replicate (Z.to_nat n) v).

Definition zeros (n : Z) : Result (list F) := full n (of_int 0).

(** [np.append(a, b)] *)
Definition append (a b : list F) : list F := a ++ b.

(** [a op= b] on arrays: [b] has the shape of [a], or is broadcast from a
    single element; any other shape is refused. *)
Definition inplace (op : F → F → F) (a b : list F) : Result (list F) :=
  if decide (length b = length a) then Ok (zip_with op a b)
  else match b with
       | [b0] => Ok ((λ x, op x b0) <$> a)
       | _ => Raise ValueError
       end.

End Numpy.

(** [np.sin(a)] *)
Definition sin {F : Type} `{Trig F} (a : list F) : list F := fsin <$> a.

End np.

(** A scalar times an array. *)
Definition scale {F : Type} `{Arith F} (c : F) (a : list F) : list F :=
  (λ x, c * x)%fl <$> a.

(** ** The random source

    [np.random] is global state.  A state of the generator is the sequence of
    standard-normal draws it will deliver from now on. *)

Definition RandomState (F : Type) : Type := nat → F.

(** [np.random.standard_normal(size)]: delivers the next [size] draws and
    advances the generator; a negative [size] is refused.  Arrays have no
    largest size here: numpy also refuses a size beyond its largest dimension
    ([ValueError]) or beyond the memory at hand, and then delivers nothing. *)
Definition standard_normal {F : Type} (size : Z) (rng : RandomState F)
  : Result (list F) * RandomState F :=
  if (size <? 0)%Z then (Raise ValueError, rng)
  else let n := Z.to_nat size in
       (Ok (rng <$> seq 0 n), λ k, rng (n + k)).

(** ** [queue.Queue(maxsize)] *)

Record Queue (A : Type) : Type := mkQueue {
  maxsize : nat;
  items : list A;
}.
Arguments mkQueue {A} maxsize items.
Arguments maxsize {A} q.
Arguments items {A} q.

Module Queue_.
Section Ops.
Context {A : Type}.

Definition new (maxsize : nat) : Queue A := mkQueue maxsize [].

Definition qsize (q : Queue A) : nat := length (items q).

(** [q.full()]: [0 < maxsize <= qsize] *)
Definition full (q : Queue A) : bool :=
  (0 <? maxsize q) && (maxsize q <=? qsize q).

(** [q.get()]: removes the oldest item; waits while the queue is empty. *)
Definition get (q : Queue A) : Result (A * Queue A) :=
  match items q with
  | [] => Blocks
  | x :: rest => Ok (x, mkQueue (maxsize q) rest)
  end.

(** [q.put(x)]: appends; waits while the queue is full. *)
Definition put (q : Queue A) (x : A) : Result (Queue A) :=
  if full q then Blocks else Ok (mkQueue (maxsize q) (items q ++ [x])).

End Ops.
End Queue_.

(** ** [class Beep(Instrument)]: a sine wave *)

Module Beep.
Section Beep.
Context {F : Type} `{Arith F} `{Trig F}.

Definition getNote (frequency : F) (duration sampleRate : Z) : Result (list F) :=
  seconds ← truediv_int (of_int duration) sampleRate;
  time ← np.linspace (of_int 0) seconds duration;
  let samples := np.sin (scale (frequency * of_int 2 * fpi)%fl time) in
  Ok samples.

End Beep.
End Beep.

(** ** [class AcousticGuitar(Instrument)]: a plucked string *)

Module AcousticGuitar.
Section AcousticGuitar.
Context {F : Type} `{Arith F}.

(** The variables of [getBaseStringSound]. *)
Record Pluck : Type := mkPluck {
  samples : list F;
  buffer : list F;
  last : F;
  delayLine : Queue F;
  bufferCounter : nat;
}.

(** [np.random.standard_normal(int(sampleRate / frequency))] *)
Definition ringBuffer (frequency : F) (sampleRate : Z) (rng : RandomState F)
  : Result (list F) * RandomState F :=
  match q ← truediv (of_int sampleRate) frequency; int q with
  | Ok size => standard_normal size rng
  | Raise e => (Raise e, rng)
  | Blocks => (Blocks, rng)
  end.

(** The low-pass filter of one turn: [(last + buffer[bufferCounter]) / 2]. *)
Definition lowPass (st : Pluck) : Result F :=
  b ← getitem (buffer st) (bufferCounter st);
  Ok ((last st + b) / of_int 2)%fl.

(** The delay effect of one turn, taken when the delay line is full. *)
Definition feedback (current : F) (q : Queue F) : Result (F * Queue F) :=
  if Queue_.full q then
    '(delayed, q) ← Queue_.get q;
    let delayed := (delayed * of_Q 0.999)%fl in
    let current := (current + delayed)%fl in
    let current := (current / of_int 2)%fl in
    Ok (current, q)
  else Ok (current, q).

(** One turn of the loop. *)
Definition tick (st : Pluck) : Result Pluck :=
  current ← lowPass st;
  '(current, q) ← feedback current (delayLine st);
  let samples := samples st ++ [current] in
  q ← Queue_.put q current;
  let last := current in
  buffer ← setitem (buffer st) (bufferCounter st) current;
  let bufferCounter := S (bufferCounter st) in
  let bufferCounter :=
    if decide (length buffer ≤ bufferCounter) then 0 else bufferCounter in
  Ok (mkPluck samples buffer last q bufferCounter).

(** [getBaseStringSound] from the ring buffer on.  ([debug] is [False]: the
    plot is never drawn.) *)
Definition pluck (buffer : list F) (duration : Z) : Result (list F) :=
  last ← getitem buffer 0;
  let delayLine := Queue_.new 200 in
  let bufferCounter := 0 in
  st ← for_ (range 0 duration) (λ _, tick)
            (mkPluck [] buffer last delayLine bufferCounter);
  Ok (samples st).

Definition getBaseStringSound (frequency : F) (duration sampleRate : Z)
    (rng : RandomState F) : Result (list F) * RandomState F :=
  let '(buffer, rng) := ringBuffer frequency sampleRate rng in
  (buffer ← buffer; pluck buffer duration, rng).

Definition getNote (frequency : F) (duration sampleRate : Z)
    (rng : RandomState F) : Result (list F) * RandomState F :=
  getBaseStringSound frequency duration sampleRate rng.

End AcousticGuitar.
End AcousticGuitar.

(** ** [class Trumpet(Instrument)]: a synthesized trumpet *)

Module Trumpet.

(** The relative amplitudes of the 19 partials. *)
Definition envelope : list Q :=
  [3.6; 2.825; 3; 2.688; 1.464; 1.520; 1.122; 0.940; 0.738; 0.495; 0.362;
   0.237; 0.154; 0.154; 0.101; 0.082; 0.054; 0.038; 0.036]%Q.

Section Trumpet.
Context {F : Type} `{Arith F} `{Trig F}.

(** One partial: [amplitude * np.sin(frequency * (i + 1) * 2 * np.pi * time)]. *)
Definition partial (frequency : F) (time : list F) (i : nat) (amplitude : Q)
  : list F :=
  scale (of_Q amplitude)
    (np.sin (scale (frequency * of_int (Z.of_nat i + 1) * of_int 2 * fpi)%fl time)).

(** Additive synthesis. *)
Definition additive (frequency : F) (duration sampleRate : Z) : Result (list F) :=
  seconds ← truediv_int (of_int duration) sampleRate;
  time ← np.linspace (of_int 0) seconds duration;
  samples ← np.zeros duration;
  for_ (imap pair envelope)
       (λ '(i, amplitude) samples,
          np.inplace fadd samples (partial frequency time i amplitude))
       samples.

(** One turn of the filter loop. *)
Definition highPassStep (alpha : F) (samples : list F) (i : nat)
    (newSamples : list F) : Result (list F) :=
  y1 ← getitem newSamples (i - 1);
  x ← getitem samples i;
  x1 ← getitem samples (i - 1);
  setitem newSamples i (alpha * (y1 + x - x1))%fl.

(** High-pass filter. *)
Definition highPass (frequency : F) (duration sampleRate : Z) (samples : list F)
  : Result (list F) :=
  RC ← truediv (of_int 1) (fpi * frequency * of_int 32)%fl;
  dt ← truediv_int (of_Q 1.0) sampleRate;
  alpha ← truediv RC (RC + dt)%fl;
  newSamples ← np.zeros duration;
  s0 ← getitem samples 0;
  newSamples ← setitem newSamples 0 s0;
  for_ (range 1 duration) (highPassStep alpha samples) newSamples.

(** The signal before the ADSR curve. *)
Definition filtered (frequency : F) (duration sampleRate : Z) : Result (list F) :=
  samples ← additive frequency duration sampleRate;
  highPass frequency duration sampleRate samples.

Definition peak : F := of_Q 0.1.
Definition sustain : F := (peak * of_Q 0.8)%fl.

(** The ADSR curve, from the lengths of its four segments. *)
Definition adsr (attackLength decayLength sustainLength releaseLength : Z)
  : Result (list F) :=
  adsr ← np.linspace (of_int 0) peak attackLength;
  seg ← np.linspace peak sustain decayLength;
  let adsr := np.append adsr seg in
  seg ← np.full sustainLength sustain;
  let adsr := np.append adsr seg in
  seg ← np.linspace sustain (of_int 0) releaseLength;
  Ok (np.append adsr seg).

Definition getNote (frequency : F) (duration sampleRate : Z) : Result (list F) :=
  samples ← filtered frequency duration sampleRate;
  attackLength ← int (of_Q 0.075 * of_int sampleRate)%fl;
  decayLength ← int (of_Q 0.3 * of_int sampleRate)%fl;
  releaseLength ← int (of_Q 0.2 * of_int sampleRate)%fl;
  let sustainLength :=
    (duration - attackLength - decayLength - releaseLength)%Z in
  if (0 <=? sustainLength)%Z then
    adsr ← adsr attackLength decayLength sustainLength releaseLength;
    np.inplace fmul samples adsr
  else Ok samples.

(** The four lengths [getNote] computes, as
    [(attackLength, decayLength, sustainLength, releaseLength)]. *)
Definition lengths (duration sampleRate : Z) : Result (Z * Z * Z * Z) :=
  attackLength ← int (of_Q 0.075 * of_int sampleRate)%fl;
  decayLength ← int (of_Q 0.3 * of_int sampleRate)%fl;
  releaseLength ← int (of_Q 0.2 * of_int sampleRate)%fl;
  Ok (attackLength, decayLength,
      (duration - attackLength - decayLength - releaseLength)%Z,
      releaseLength).

End Trumpet.
End Trumpet.

(** ** [class Instrument] *)

Inductive Instrument : Set := Beep | AcousticGuitar | Trumpet.

Section Instrument.
Context {F : Type} `{Arith F}.

(** [self.getNote(frequency, duration, sampleRate)], by the class of [self];
    the random source is threaded through every call. *)
Definition getNote `{Trig F} (self : Instrument) (frequency : F)
    (duration sampleRate : Z) (rng : RandomState F)
  : Result (list F) * RandomState F :=
  match self with
  | Beep => (Beep.getNote frequency duration sampleRate, rng)
  | AcousticGuitar => AcousticGuitar.getNote frequency duration sampleRate rng
  | Trumpet => (Trumpet.getNote frequency duration sampleRate, rng)
  end.

Definition duplicateChannel `{Single F} (channel : list F) : list (F * F) :=
  foldl (λ newSamples sample,
           let sample32 := float32 (sample / of_int 2)%fl in
           newSamples ++ [(sample32, sample32)])
        [] channel.

Definition matchNotes `{Trig F} `{Single F} {A : Type} (self : Instrument)
    (fileData : list A) (sampleRate : Z) (rng : RandomState F)
  : Result (list (F * F)) * RandomState F :=
  let '(samples, rng) :=
    getNote self (of_int 440) (Z.of_nat (length fileData)) sampleRate rng in
  (samples ← samples; Ok (duplicateChannel samples), rng).

End Instrument.

(** ** The two arithmetics *)

(** *** Exact real numbers *)

#[global] Instance R_eq_dec : EqDecision R := Req_dec_T.

(** [int(x)] truncates toward zero.  No real number is an infinity or a
    NaN: in exact arithmetic no quotient overflows and [int] always returns,
    where in double precision [int(sampleRate / frequency)] raises
    [OverflowError] at a frequency so small that the quotient is infinite. *)
Definition Rtrunc (x : R) : Z := if Rle_dec 0 x then Zfloor x else Zceil x.

#[global] Instance R_Arith : Arith R := {|
  of_int := IZR;
  of_Q := Q2R;
  fadd := Rplus;
  fsub := Rminus;
  fmul := Rmult;
  fdiv := Rdiv;
  is_zero x := bool_decide (x = 0%R);
  int x := Ok (Rtrunc x);
|}.

#[global] Instance R_Trig : Trig R := {|
  fsin := Rtrigo_def.sin;
  fpi := PI;
|}.

(** *** IEEE 754 double precision *)

Module binary64.

(** The double nearest to an integer.  (Integers beyond the range of the
    doubles, which Python refuses to convert, are outside the model.) *)
Definition of_Z (z : Z) : float := SF2Prim (binary_normalize prec emax z 0 false).

(** The double nearest to a decimal literal: the correctly rounded quotient
    of its numerator and denominator. *)
Definition of_decimal (q : Q) : float :=
  PrimFloat.div (of_Z (Qnum q)) (of_Z (Zpos (Qden q))).

(** [int(x)] of a finite double: its mantissa shifted by its exponent,
    with its sign. *)
Definition trunc (x : float) : Result Z :=
  match Prim2SF x with
  | S754_zero _ => Ok 0%Z
  | S754_finite s m e =>
      let a := if (0 <=? e)%Z then Z.shiftl (Zpos m) e
               else Z.shiftr (Zpos m) (- e) in
      Ok (if s then (- a)%Z else a)
  | S754_infinity _ => Raise OverflowError
  | S754_nan => Raise ValueError
  end.

(** The cast to single precision (24 bits of mantissa, exponents up to
    128), rounding to nearest, ties to even; the result is held in a
    double. *)
Definition to_single (x : float) : float :=
  match Prim2SF x with
  | S754_finite s m e => SF2Prim (binary_round 24 128 s m e)
  | _ => x
  end.

End binary64.

#[global] Instance binary64_Arith : Arith float := {|
  of_int := binary64.of_Z;
  of_Q := binary64.of_decimal;
  fadd := PrimFloat.add;
  fsub := PrimFloat.sub;
  fmul := PrimFloat.mul;
  fdiv := PrimFloat.div;
  is_zero x := PrimFloat.eqb x PrimFloat.zero;
  int := binary64.trunc;
|}.

#[global] Instance binary64_Single : Single float := {|
  float32 := binary64.to_single;
|}.

(** ** Random sources of the examples *)

(** A double-precision source that delivers 0, 1, 2, ... *)
Definition ramp : RandomState float := λ k, binary64.of_Z (Z.of_nat k).

(** A real source that delivers 0, 1, 2, ... *)
Definition count : RandomState R := λ k, INR k.

(** A real source that delivers 1, -1, 1, -1, ... *)
Definition square : RandomState R := λ k, if Nat.even k then 1%R else (-1)%R.

(** ** Auxiliary notions of the proofs *)

(** The state of the string loop after [k] turns over a ring buffer of [n]
    cells: the buffer keeps its size, the cursor stays inside it, the delay
    line holds the last [min k 200] samples, and [k] samples were emitted. *)
Definition ticking {F : Type} (n k : nat) (st : AcousticGuitar.Pluck (F:=F))
  : Prop :=
  length (AcousticGuitar.buffer st) = n ∧
  AcousticGuitar.bufferCounter st < n ∧
  maxsize (AcousticGuitar.delayLine st) = 200 ∧
  Queue_.qsize (AcousticGuitar.delayLine st) = k `min` 200 ∧
  length (AcousticGuitar.samples st) = k.

(** The state of the string loop after [k] turns, in full: besides
    [ticking], the cursor has gone [k] steps round the ring and the delay
    line holds the samples emitted over the last 200 turns, oldest first. *)
Definition cycling {F : Type} (n k : nat) (st : AcousticGuitar.Pluck (F:=F))
  : Prop :=
  ticking n k st ∧
  AcousticGuitar.bufferCounter st = k `mod` n ∧
  items (AcousticGuitar.delayLine st) = drop (k - 200) (AcousticGuitar.samples st).

(** The sum of a list of real numbers. *)
Definition Rsum (l : list R) : R := foldr Rplus 0%R l.

(** The coefficient of the high-pass filter of the brass generator, in
    exact arithmetic: [RC / (RC + 1 / sampleRate)] for
    [RC = 1 / (pi * frequency * 32)]. *)
Definition alpha (frequency : R) (sampleRate : Z) : R :=
  let RC := (1 / (PI * frequency * 32))%R in
  (RC / (RC + 1 / IZR sampleRate))%R.

(** The words of the specification for the size of the ring buffer: the
    quotient [x] "rounded to the nearest integer" is an integer [n] that no
    other integer beats. *)
Definition nearest_integer (x : R) (n : Z) : Prop :=
  ∀ m : Z, (Rabs (x - IZR n) <= Rabs (x - IZR m))%R.

(** * Properties *)

(** ** Outcomes and loops *)

Lemma bind_Ok {A B : Type} (m : Result A) (k : A → Result B) (b : B) :
  m ≫= k = Ok b ↔ ∃ a, m = Ok a ∧ k a = Ok b.
Proof.
  destruct m as [a| |]; simpl; split.
  - intros Hk. by exists a.
  - by intros (a' & [= <-] & Hk).
  - done.
  - by intros (a' & ? & _).
  - done.
  - by intros (a' & ? & _).
Qed.

(** Splits every hypothesis [x ← m; k = Ok b] into its two steps. *)
Ltac inv_Ok :=
  repeat match goal with
  | H : _ ≫= _ = Ok _ |- _ => apply bind_Ok in H; destruct H as (? & ? & H)
  | H : Ok _ = Ok _ |- _ => injection H as H
  | H : Raise _ = Ok _ |- _ => discriminate H
  | H : Blocks = Ok _ |- _ => discriminate H
  end.

Lemma getitem_Ok {A : Type} (l : list A) (i : nat) (x : A) :
  getitem l i = Ok x ↔ l !! i = Some x.
Proof.
  unfold getitem. destruct (l !! i); split; intros; simplify_eq; done.
Qed.

Lemma getitem_lt {A : Type} (l : list A) (i : nat) :
  i < length l → ∃ x, getitem l i = Ok x ∧ l !! i = Some x.
Proof.
  intros Hi. destruct (lookup_lt_is_Some_2 l i Hi) as [x Hx].
  exists x. split; [by apply getitem_Ok | done].
Qed.

Lemma setitem_Ok {A : Type} (l l' : list A) (i : nat) (x : A) :
  setitem l i x = Ok l' ↔ i < length l ∧ l' = <[i := x]> l.
Proof.
  unfold setitem. destruct (decide (i < length l)); split.
  - by intros [= <-].
  - by intros [_ ->].
  - done.
  - by intros [? _].
Qed.

Lemma length_range (lo : nat) (hi : Z) :
  length (range lo hi) = Z.to_nat hi - lo.
Proof. apply length_seq. Qed.

Lemma lookup_range (lo : nat) (hi : Z) (k i : nat) :
  range lo hi !! k = Some i → i = lo + k ∧ lo + k < Z.to_nat hi.
Proof. unfold range. intros [-> Hk]%lookup_seq. lia. Qed.

(** A loop keeps an invariant [P k s], where [k] counts the turns taken. *)
Lemma for_invariant {A S : Type} (P : nat → S → Prop) (body : A → S → Result S)
    (xs : list A) (s s' : S) :
  P 0 s →
  (∀ k x s s', xs !! k = Some x → P k s → body x s = Ok s' → P (Datatypes.S k) s') →
  for_ xs body s = Ok s' →
  P (length xs) s'.
Proof.
  revert P s. induction xs as [|x xs IH]; intros P s H0 Hstep Hrun; simpl in *.
  - by injection Hrun as <-.
  - inv_Ok. apply (IH (λ k, P (Datatypes.S k)) x0); [|intros k y t t' Hy; apply (Hstep (Datatypes.S k) y t t' Hy)|done].
    by apply (Hstep 0 x s x0).
Qed.

(** A loop whose every turn returns, returns. *)
Lemma for_returns {A S : Type} (P : nat → S → Prop) (body : A → S → Result S)
    (xs : list A) (s : S) :
  P 0 s →
  (∀ k x s, xs !! k = Some x → P k s →
            ∃ s', body x s = Ok s' ∧ P (Datatypes.S k) s') →
  ∃ s', for_ xs body s = Ok s' ∧ P (length xs) s'.
Proof.
  revert P s. induction xs as [|x xs IH]; intros P s H0 Hstep; simpl.
  - by exists s.
  - destruct (Hstep 0 x s eq_refl H0) as (s1 & -> & H1). simpl.
    apply (IH (λ k, P (Datatypes.S k)) s1 H1).
    intros k y t Hy. apply (Hstep (Datatypes.S k) y t Hy).
Qed.

(** The turns of a loop, one after the other. *)
Lemma for_app {A S : Type} (body : A → S → Result S) (xs ys : list A) (s : S) :
  for_ (xs ++ ys) body s = for_ xs body s ≫= for_ ys body.
Proof.
  revert s. induction xs as [|x xs IH]; intros s; simpl; [done|].
  destruct (body x s) as [s1| |]; simpl; [apply IH|done|done].
Qed.

(** ** numpy *)

Section NumpyFacts.
Context {F : Type} `{Arith F}.

Lemma length_arange (n : nat) : length (np.arange (F:=F) n) = n.
Proof. unfold np.arange. by rewrite length_fmap, length_seq. Qed.

Lemma linspace_Ok (start stop : F) (num : Z) (l : list F) :
  np.linspace start stop num = Ok l → (0 ≤ num)%Z ∧ length l = Z.to_nat num.
Proof.
  unfold np.linspace. destruct (Z.ltb_spec num 0); [done|].
  intros [= <-]. split; [done|].
  destruct (1 <? num)%Z; rewrite ?length_insert, length_fmap;
    destruct (0 <? num - 1)%Z; try destruct (is_zero _);
    by rewrite length_fmap, length_arange.
Qed.

Lemma linspace_returns (start stop : F) (num : Z) :
  (0 ≤ num)%Z → ∃ l, np.linspace start stop num = Ok l.
Proof.
  intros Hnum. unfold np.linspace.
  destruct (Z.ltb_spec num 0); [lia|]. by eexists.
Qed.

Lemma full_Ok (n : Z) (v : F) (l : list F) :
  np.full n v = Ok l → (0 ≤ n)%Z ∧ l = replicate (Z.to_nat n) v.
Proof.
  unfold np.full. destruct (Z.ltb_spec n 0); [done|]. by intros [= <-].
Qed.

Lemma inplace_Ok (op : F → F → F) (a b c : list F) :
  np.inplace op a b = Ok c → length c = length a.
Proof.
  unfold np.inplace. destruct (decide (length b = length a)) as [Hb|Hb].
  - intros [= <-]. rewrite length_zip_with. lia.
  - destruct b as [|b0 [|]]; [done| |done]. intros [= <-]. by rewrite length_fmap.
Qed.

Lemma inplace_same_length (op : F → F → F) (a b : list F) :
  length b = length a → np.inplace op a b = Ok (zip_with op a b).
Proof. intros Hb. unfold np.inplace. by rewrite decide_True. Qed.

Lemma length_scale (c : F) (a : list F) : length (scale c a) = length a.
Proof. apply length_fmap. Qed.

End NumpyFacts.

Lemma length_sin {F : Type} `{Trig F} (a : list F) : length (np.sin a) = length a.
Proof. apply length_fmap. Qed.

(** ** The plucked string *)

Section StringFacts.
Context {F : Type} `{Arith F}.
Import AcousticGuitar.

(** What one turn of the loop does to the variables. *)
Lemma tick_Ok (st st' : Pluck) :
  tick st = Ok st' →
  ∃ filtered current q,
    lowPass st = Ok filtered ∧
    feedback filtered (delayLine st) = Ok (current, q) ∧
    Queue_.put q current = Ok (delayLine st') ∧
    samples st' = samples st ++ [current] ∧
    last st' = current ∧
    bufferCounter st < length (buffer st) ∧
    buffer st' = <[bufferCounter st := current]> (buffer st) ∧
    bufferCounter st' =
      if decide (length (buffer st) ≤ S (bufferCounter st)) then 0
      else S (bufferCounter st).
Proof.
  unfold tick. intros Hrun. inv_Ok.
  destruct x0 as [current q]. inv_Ok.
  match goal with Hs : setitem _ _ _ = Ok _ |- _ =>
    apply setitem_Ok in Hs; destruct Hs as [Hlt ->] end.
  subst st'. simpl. rewrite length_insert.
  by exists x, current, q.
Qed.

(** While the delay line is not full, the delay effect changes nothing. *)
Lemma feedback_not_full (current : F) (q : Queue F) :
  Queue_.full q = false → feedback current q = Ok (current, q).
Proof. unfold feedback. by intros ->. Qed.

Lemma tick_returns (n k : nat) (st : Pluck) :
  ticking n k st → ∃ st', tick st = Ok st' ∧ ticking n (S k) st'.
Proof.
  intros (Hlen & Hc & Hmax & Hsize & Hout).
  destruct (getitem_lt (buffer st) (bufferCounter st)) as (b & Hb & _); [lia|].
  unfold tick, lowPass. rewrite Hb. simpl.
  assert (∃ current q, feedback ((last st + b) / of_int 2)%fl (delayLine st)
                         = Ok (current, q)
                       ∧ maxsize q = 200 ∧ Queue_.full q = false
                       ∧ S (Queue_.qsize q) = S k `min` 200)
    as (current & q & -> & Hmax' & Hfull' & Hsize').
  { unfold feedback, Queue_.full, Queue_.get, Queue_.qsize in *.
    rewrite Hmax. destruct (delayLine st) as [m [|x rest]];
      cbn [items maxsize length] in *.
    - eexists _, _. split; [done|]. cbn [items maxsize length].
      subst m. repeat split. lia.
    - destruct (Nat.leb_spec 200 (S (length rest))) as [Hfull|Hfull].
      + eexists _, _. split; [done|]. cbn [items maxsize length]. subst m.
        repeat split; [|lia]. apply andb_false_intro2, Nat.leb_gt. lia.
      + eexists _, _. split; [done|]. cbn [items maxsize length]. subst m.
        repeat split; [|lia]. apply andb_false_intro2, Nat.leb_gt.
        cbn [length]. lia. }
  cbn [mbind Result_bind]. unfold Queue_.put. rewrite Hfull'.
  cbn [mbind Result_bind].
  unfold setitem. rewrite decide_True by lia. cbn [mbind Result_bind].
  eexists. split; [done|].
  unfold ticking, Queue_.qsize in *;
    cbn [samples buffer last delayLine bufferCounter items maxsize].
  rewrite length_insert, !length_app, Hlen. cbn [length].
  repeat split; [|done|lia|lia].
  destruct (decide (n ≤ S (bufferCounter st))); lia.
Qed.

(** With a ring buffer of at least one cell, the loop returns. *)
Lemma pluck_returns (buffer0 : list F) (duration : Z) :
  buffer0 ≠ [] →
  ∃ b0 st,
    buffer0 !! 0 = Some b0 ∧
    for_ (range 0 duration) (λ _, tick)
         (mkPluck [] buffer0 b0 (Queue_.new 200) 0) = Ok st ∧
    ticking (length buffer0) (Z.to_nat duration) st ∧
    pluck buffer0 duration = Ok (samples st).
Proof.
  intros Hne. destruct buffer0 as [|b0 rest]; [done|]. exists b0.
  destruct (for_returns (ticking (length (b0 :: rest)))
              (λ _ : nat, tick) (range 0 duration)
              (mkPluck [] (b0 :: rest) b0 (Queue_.new 200) 0))
    as (st & Hrun & Hst).
  - repeat split; simpl; lia.
  - intros k x st _ Hst. by apply tick_returns.
  - exists st. rewrite length_range, Nat.sub_0_r in Hst.
    split_and!; [done..|].
    unfold pluck. simpl. by rewrite Hrun.
Qed.

(** With an empty ring buffer, [buffer[0]] raises. *)
Lemma pluck_empty (duration : Z) : pluck (F:=F) [] duration = Raise IndexError.
Proof. done. Qed.

(** The loop appends one sample per turn. *)
Lemma pluck_length (buffer0 : list F) (duration : Z) (out : list F) :
  pluck buffer0 duration = Ok out → length out = Z.to_nat duration.
Proof.
  unfold pluck. intros Hrun. inv_Ok. subst out.
  match goal with Hfor : for_ _ _ _ = Ok _ |- _ =>
    apply (for_invariant (λ k st, length (samples st) = k)) in Hfor end.
  - by rewrite length_range, Nat.sub_0_r in *.
  - done.
  - intros k _ st st' _ Hk Htick.
    apply tick_Ok in Htick as (? & ? & ? & _ & _ & _ & -> & _).
    rewrite length_app. simpl. lia.
Qed.

(** Over a duration [<= 0] the loop takes no turn: the note is empty. *)
Lemma pluck_no_turn (buffer0 : list F) (duration : Z) :
  buffer0 ≠ [] → (duration ≤ 0)%Z → pluck buffer0 duration = Ok [].
Proof.
  intros Hne Hd. destruct buffer0 as [|b0 rest]; [done|].
  unfold pluck, range. by replace (Z.to_nat duration - 0) with 0 by lia.
Qed.

End StringFacts.

(** ** The lengths of the notes *)

Section Lengths.
Context {F : Type} `{Arith F} `{Trig F}.

Lemma Beep_getNote_length (frequency : F) (duration sampleRate : Z)
    (out : list F) :
  Beep.getNote frequency duration sampleRate = Ok out →
  (0 ≤ duration)%Z ∧ length out = Z.to_nat duration.
Proof.
  unfold Beep.getNote. intros Hrun. inv_Ok. subst out.
  match goal with Hl : np.linspace _ _ _ = Ok _ |- _ =>
    apply linspace_Ok in Hl as [Hd Hl] end.
  by rewrite length_sin, length_scale.
Qed.

Lemma additive_length (frequency : F) (duration sampleRate : Z)
    (samples : list F) :
  Trumpet.additive frequency duration sampleRate = Ok samples →
  (0 ≤ duration)%Z ∧ length samples = Z.to_nat duration.
Proof.
  unfold Trumpet.additive. intros Hrun. inv_Ok.
  match goal with Hl : np.linspace _ _ _ = Ok _ |- _ =>
    apply linspace_Ok in Hl as [Hd Hl] end.
  split; [done|].
  match goal with Hz : np.zeros _ = Ok _ |- _ =>
    apply full_Ok in Hz as [_ ->] end.
  match goal with Hfor : for_ _ _ _ = Ok _ |- _ =>
    apply (for_invariant (λ _ s, length s = Z.to_nat duration)) in Hfor end.
  - done.
  - by rewrite length_replicate.
  - intros k [i amplitude] s s' _ Hs Hstep.
    apply inplace_Ok in Hstep. congruence.
Qed.

Lemma highPass_length (frequency : F) (duration sampleRate : Z)
    (samples newSamples : list F) :
  Trumpet.highPass frequency duration sampleRate samples = Ok newSamples →
  length newSamples = Z.to_nat duration.
Proof.
  unfold Trumpet.highPass. intros Hrun. inv_Ok.
  match goal with Hz : np.zeros _ = Ok _ |- _ =>
    apply full_Ok in Hz as [_ ->] end.
  match goal with Hs : setitem _ _ _ = Ok _ |- _ =>
    apply setitem_Ok in Hs as [_ ->] end.
  match goal with Hfor : for_ _ _ _ = Ok _ |- _ =>
    apply (for_invariant (λ _ s, length s = Z.to_nat duration)) in Hfor end.
  - done.
  - by rewrite length_insert, length_replicate.
  - intros k i s s' _ Hs Hstep. unfold Trumpet.highPassStep in Hstep. inv_Ok.
    apply setitem_Ok in Hstep as [_ ->]. by rewrite length_insert.
Qed.

Lemma filtered_length (frequency : F) (duration sampleRate : Z)
    (samples : list F) :
  Trumpet.filtered frequency duration sampleRate = Ok samples →
  (0 ≤ duration)%Z ∧ length samples = Z.to_nat duration.
Proof.
  unfold Trumpet.filtered. intros Hrun. inv_Ok.
  match goal with Ha : Trumpet.additive _ _ _ = Ok _ |- _ =>
    apply additive_length in Ha as [Hd _] end.
  split; [done|]. by eapply highPass_length.
Qed.

Lemma Trumpet_getNote_length (frequency : F) (duration sampleRate : Z)
    (out : list F) :
  Trumpet.getNote frequency duration sampleRate = Ok out →
  (0 ≤ duration)%Z ∧ length out = Z.to_nat duration.
Proof.
  unfold Trumpet.getNote. intros Hrun. inv_Ok.
  match goal with Hf : Trumpet.filtered _ _ _ = Ok _ |- _ =>
    apply filtered_length in Hf as [Hd Hf] end.
  split; [done|].
  destruct (0 <=? _)%Z.
  - inv_Ok. apply inplace_Ok in Hrun. congruence.
  - inv_Ok. congruence.
Qed.

Lemma AcousticGuitar_getNote_length (frequency : F) (duration sampleRate : Z)
    (rng rng' : RandomState F) (out : list F) :
  AcousticGuitar.getNote frequency duration sampleRate rng = (Ok out, rng') →
  length out = Z.to_nat duration.
Proof.
  unfold AcousticGuitar.getNote, AcousticGuitar.getBaseStringSound.
  destruct (AcousticGuitar.ringBuffer _ _ _) as [buffer rng1].
  intros [= Hrun _]. inv_Ok. by eapply pluck_length.
Qed.

(** C1.  Whenever a call of [getNote] with a duration [>= 0] returns, on any
    of the three instruments, for any frequency and sample rate and in any
    arithmetic, the note it returns has exactly [duration] samples. *)
Theorem getNote_length (self : Instrument) (frequency : F)
    (duration sampleRate : Z) (rng rng' : RandomState F) (out : list F) :
  (0 ≤ duration)%Z →
  getNote self frequency duration sampleRate rng = (Ok out, rng') →
  Z.of_nat (length out) = duration.
Proof.
  intros Hd Hrun.
  enough (length out = Z.to_nat duration) by lia.
  destruct self; simpl in Hrun.
  - injection Hrun as Hrun _. by apply Beep_getNote_length in Hrun as [_ ?].
  - by eapply AcousticGuitar_getNote_length.
  - injection Hrun as Hrun _. by apply Trumpet_getNote_length in Hrun as [_ ?].
Qed.

End Lengths.

(** ** The short notes of the trumpet *)

(** C6.  When the sustain length [getNote] computes is negative (the
    duration is shorter than attack + decay + release), the outcome of the
    brass generator is the outcome of its first two stages, the high-pass
    filtered harmonic sum: no sample is scaled by an envelope.  This holds in
    any arithmetic. *)
Theorem Trumpet_short_note {F : Type} `{Arith F} `{Trig F} (frequency : F)
    (duration sampleRate attackLength decayLength sustainLength releaseLength : Z) :
  Trumpet.lengths (F:=F) duration sampleRate
    = Ok (attackLength, decayLength, sustainLength, releaseLength) →
  (sustainLength < 0)%Z →
  Trumpet.getNote frequency duration sampleRate
    = Trumpet.filtered frequency duration sampleRate.
Proof.
  unfold Trumpet.lengths, Trumpet.getNote. intros Hlen Hneg. inv_Ok.
  destruct (Trumpet.filtered _ _ _) as [samples| |]; simpl; [|done..].
  repeat match goal with Hi : int _ = Ok _ |- _ => rewrite Hi; clear Hi end.
  simpl. subst. by destruct (Z.leb_spec 0 (duration - attackLength - decayLength - releaseLength)); [lia|].
Qed.

(** ** The stereo frames *)

Lemma foldl_snoc {A B : Type} (g : A → B) (acc : list B) (l : list A) :
  foldl (λ acc x, acc ++ [g x]) acc l = acc ++ (g <$> l).
Proof.
  revert acc. induction l as [|x l IH]; intros acc; simpl.
  - by rewrite app_nil_r.
  - by rewrite IH, <- app_assoc.
Qed.

(** C8, as the code has it.  [duplicateChannel] returns one frame per sample
    of the channel, and the two channels of frame [i] both hold
    [channel[i] / 2] cast to single precision. *)
Theorem duplicateChannel_frames {F : Type} `{Arith F} `{Single F}
    (channel : list F) :
  length (duplicateChannel channel) = length channel ∧
  ∀ i : nat,
    duplicateChannel channel !! i
    = (λ sample, (float32 (sample / of_int 2)%fl, float32 (sample / of_int 2)%fl))
        <$> channel !! i.
Proof.
  unfold duplicateChannel.
  rewrite (foldl_snoc (λ sample, (float32 (sample / of_int 2)%fl,
                                  float32 (sample / of_int 2)%fl))).
  simpl. split; [apply length_fmap|]. intros i. apply list_lookup_fmap.
Qed.

(** ** The delay line of the string *)

Section DelayLine.
Context {F : Type} `{Arith F}.
Import AcousticGuitar.

(** The loop only ever appends to [samples]. *)
Lemma ticks_extend (xs : list nat) (st st' : Pluck (F:=F)) :
  for_ xs (λ _, tick) st = Ok st' → samples st `prefix_of` samples st'.
Proof.
  intros Hrun.
  apply (for_invariant (λ _ s, samples st `prefix_of` samples s)) in Hrun;
    [done|done|].
  intros k _ s s' _ Hs Htick.
  apply tick_Ok in Htick as (? & ? & ? & _ & _ & _ & -> & _).
  by apply prefix_app_r.
Qed.

(** Before its first 200 turns are over the delay line is not full. *)
Lemma ticking_not_full (n k : nat) (st : Pluck (F:=F)) :
  ticking n k st → k < 200 → Queue_.full (delayLine st) = false.
Proof.
  intros (_ & _ & Hmax & Hsize & _) Hk. unfold Queue_.full.
  rewrite Hmax, Hsize. apply andb_false_intro2, Nat.leb_gt. lia.
Qed.

Lemma range_split (k : nat) (duration : Z) :
  (Z.of_nat k < duration)%Z →
  range 0 duration = range 0 (Z.of_nat k) ++ k :: range (S k) duration.
Proof.
  intros Hk. unfold range.
  replace (Z.to_nat duration - 0) with (k + S (Z.to_nat duration - S k)) by lia.
  rewrite seq_app, Nat2Z.id, Nat.sub_0_r. done.
Qed.

(** C5, as the code has it.  When the ring buffer the generator draws has at
    least one cell: for a duration of 0 the note is empty, and for every
    duration below 200 the delay line is not full after any number [k] of
    turns of the loop, so that the delay effect is never taken and the
    sample emitted at turn [k] is the low-pass value
    [(last + buffer[bufferCounter]) / 2] of the variables at that turn.
    This holds in any arithmetic. *)
Theorem string_without_feedback (frequency : F) (duration sampleRate : Z)
    (rng : RandomState F) (buffer0 : list F) :
  fst (ringBuffer frequency sampleRate rng) = Ok buffer0 →
  buffer0 ≠ [] →
  (duration < 200)%Z →
  ∃ out,
    fst (AcousticGuitar.getNote frequency duration sampleRate rng) = Ok out ∧
    (duration = 0%Z → out = []) ∧
    ∀ k : nat, (Z.of_nat k ≤ duration)%Z →
      ∃ b0 st,
        buffer0 !! 0 = Some b0 ∧
        for_ (range 0 (Z.of_nat k)) (λ _, tick)
             (mkPluck [] buffer0 b0 (Queue_.new 200) 0) = Ok st ∧
        Queue_.full (delayLine st) = false ∧
        ((Z.of_nat k < duration)%Z →
         ∃ current, lowPass st = Ok current ∧ out !! k = Some current).
Proof.
  intros Hbuf Hne Hshort.
  destruct (pluck_returns buffer0 duration Hne)
    as (b0 & stN & Hb0 & HrunN & HstN & Hpluck).
  exists (samples stN). split_and!.
  - unfold AcousticGuitar.getNote, getBaseStringSound.
    destruct (ringBuffer _ _ _) as [r rng1]. simpl in *. by subst r.
  - intros ->. destruct HstN as (_ & _ & _ & _ & Hlen).
    by apply nil_length_inv.
  - intros k Hk.
    destruct (pluck_returns buffer0 (Z.of_nat k) Hne)
      as (b0' & st & Hb0' & Hrun & Hst & _).
    assert (b0' = b0) as -> by congruence.
    rewrite Nat2Z.id in Hst.
    pose proof (ticking_not_full _ _ _ Hst ltac:(lia)) as Hfull.
    exists b0, st. split_and!; [done..|]. intros Hlt.
    rewrite (range_split k duration Hlt), for_app, Hrun in HrunN.
    simpl in HrunN. inv_Ok.
    match goal with Ht : tick st = Ok ?s |- _ =>
      rename s into st1;
      apply tick_Ok in Ht
        as (filtered & current & q & Hlow & Hfb & _ & Hout & _) end.
    rewrite (feedback_not_full _ _ Hfull) in Hfb. injection Hfb as <- <-.
    exists filtered. split; [done|].
    apply ticks_extend in HrunN.
    eapply prefix_lookup_Some; [|done].
    destruct Hst as (_ & _ & _ & _ & Hlen).
    rewrite Hout, lookup_app_r, Hlen, Nat.sub_diag by lia. done.
Qed.

End DelayLine.

(** ** Exact arithmetic *)

(** Reads the operations of [Arith] and [Trig] at the real numbers. *)
Ltac real_arith :=
  cbn [of_int of_Q fadd fsub fmul fdiv is_zero int fsin fpi R_Arith R_Trig
       mbind Result_bind] in *.

Section RealFacts.
Open Scope R_scope.

Lemma Rtrunc_bound (x : R) :
  0 <= x → (0 ≤ Rtrunc x)%Z ∧ IZR (Rtrunc x) <= x < IZR (Rtrunc x) + 1.
Proof.
  intros Hx. unfold Rtrunc. destruct (Rle_dec 0 x); [|done].
  split; [by apply Zfloor_lub|apply Zfloor_bound].
Qed.

Lemma Rtrunc_eq (x : R) (z : Z) : 0 <= x → IZR z <= x < IZR z + 1 → Rtrunc x = z.
Proof.
  intros Hx Hz. unfold Rtrunc. destruct (Rle_dec 0 x); [|done].
  by apply Zfloor_eq.
Qed.

Lemma truediv_R (x y : R) : y ≠ 0 → truediv x y = Ok (x / y).
Proof.
  intros Hy. unfold truediv. simpl. by rewrite bool_decide_eq_false_2.
Qed.

Lemma truediv_R_zero (x : R) : truediv x 0 = Raise ZeroDivisionError.
Proof. unfold truediv. simpl. by rewrite bool_decide_eq_true_2. Qed.

Lemma truediv_int_R (x : R) (n : Z) : n ≠ 0%Z → truediv_int x n = Ok (x / IZR n).
Proof.
  intros Hn. unfold truediv_int. by destruct (Z.eqb_spec n 0).
Qed.

(** The ring buffer holds the next [floor (sampleRate / frequency)] draws. *)
Lemma ringBuffer_R (frequency : R) (sampleRate : Z) (rng : RandomState R) :
  0 < frequency → (0 < sampleRate)%Z →
  ∃ buffer,
    fst (AcousticGuitar.ringBuffer frequency sampleRate rng) = Ok buffer ∧
    (0 ≤ Rtrunc (IZR sampleRate / frequency))%Z ∧
    length buffer = Z.to_nat (Rtrunc (IZR sampleRate / frequency)).
Proof.
  intros Hf Hsr. unfold AcousticGuitar.ringBuffer.
  assert (0 < IZR sampleRate) by by apply IZR_lt.
  assert (0 <= IZR sampleRate / frequency)
    by (apply Rlt_le, Rdiv_lt_0_compat; done).
  destruct (Rtrunc_bound (IZR sampleRate / frequency)) as [Hsize _]; [done|].
  change (of_int sampleRate) with (IZR sampleRate).
  rewrite truediv_R by lra. simpl. unfold standard_normal.
  destruct (Z.ltb_spec (Rtrunc (IZR sampleRate / frequency)) 0); [lia|].
  eexists. simpl. split; [done|]. split; [done|].
  by rewrite length_fmap, length_seq.
Qed.

(** The ring buffer is empty exactly when the frequency exceeds the sample
    rate. *)
Lemma ring_size_positive (frequency : R) (sampleRate : Z) :
  0 < frequency → (0 < sampleRate)%Z →
  (1 ≤ Rtrunc (IZR sampleRate / frequency))%Z ↔ frequency <= IZR sampleRate.
Proof.
  intros Hf Hsr.
  assert (0 < IZR sampleRate) by by apply IZR_lt.
  assert (0 <= IZR sampleRate / frequency)
    by (apply Rlt_le, Rdiv_lt_0_compat; done).
  destruct (Rtrunc_bound (IZR sampleRate / frequency)) as [Hsize Hq]; [done|].
  split.
  - intros Hone. apply IZR_le in Hone.
    assert (1 <= IZR sampleRate / frequency) as Hge by lra.
    apply (Rmult_le_compat_r frequency) in Hge; [|lra].
    unfold Rdiv in Hge. rewrite Rmult_assoc, Rinv_l in Hge; lra.
  - intros Hle.
    assert (1 <= IZR sampleRate / frequency).
    { apply (Rmult_le_reg_r frequency); [done|].
      unfold Rdiv. rewrite Rmult_assoc, Rinv_l; lra. }
    assert (IZR 1 < IZR (Rtrunc (IZR sampleRate / frequency) + 1)) as Hlt
      by (rewrite plus_IZR; lra).
    apply lt_IZR in Hlt. lia.
Qed.

(** At frequency 0 the division that sizes the ring buffer raises. *)
Lemma string_zero_frequency (duration sampleRate : Z) (rng : RandomState R) :
  fst (AcousticGuitar.getNote 0 duration sampleRate rng)
  = Raise ZeroDivisionError.
Proof.
  unfold AcousticGuitar.getNote, AcousticGuitar.getBaseStringSound,
    AcousticGuitar.ringBuffer.
  by rewrite truediv_R_zero.
Qed.

(** C3, as the code has it.  For a frequency [> 0], a duration [>= 0] and a
    sample rate [> 0] (an integer that a float holds exactly, up to
    [2 ^ 53]), on a call that draws its ring buffer
    ([np.random.standard_normal(int(sampleRate / frequency))] has returned
    [buffer0]): when the frequency does not exceed the sample rate the ring
    buffer has at least one cell, no turn of the loop raises or blocks, and
    the generator returns [duration] samples; when the frequency exceeds the
    sample rate the ring buffer is empty and the generator raises
    [IndexError], on [buffer[0]].  A call that draws no ring buffer, because
    [int] or numpy refuse its size, has raised before. *)
Theorem string_returns (frequency : R) (duration sampleRate : Z)
    (rng : RandomState R) (buffer0 : list R) :
  0 < frequency → (0 ≤ duration)%Z → (0 < sampleRate ≤ 2 ^ 53)%Z →
  fst (AcousticGuitar.ringBuffer frequency sampleRate rng) = Ok buffer0 →
  (frequency <= IZR sampleRate →
   buffer0 ≠ [] ∧
   ∃ out,
     fst (AcousticGuitar.getNote frequency duration sampleRate rng) = Ok out ∧
     Z.of_nat (length out) = duration) ∧
  (IZR sampleRate < frequency →
   buffer0 = [] ∧
   fst (AcousticGuitar.getNote frequency duration sampleRate rng)
   = Raise IndexError).
Proof.
  intros Hf Hd [Hsr _] Hbuf0.
  destruct (ringBuffer_R frequency sampleRate rng Hf Hsr)
    as (buffer & Hbuf & Hsize & Hlen).
  assert (buffer = buffer0) as -> by congruence.
  pose proof (ring_size_positive frequency sampleRate Hf Hsr) as Hpos.
  unfold AcousticGuitar.getNote, AcousticGuitar.getBaseStringSound.
  destruct (AcousticGuitar.ringBuffer _ _ _) as [r rng1].
  cbn [fst] in *. subst r. cbn [mbind Result_bind].
  split; intros Hcmp.
  - apply Hpos in Hcmp.
    assert (buffer0 ≠ []) as Hne by (intros ->; simpl in Hlen; lia).
    split; [done|].
    destruct (pluck_returns buffer0 duration Hne)
      as (_ & st & _ & _ & Hst & Hrun).
    exists (AcousticGuitar.samples st). split; [done|].
    destruct Hst as (_ & _ & _ & _ & ->). lia.
  - assert (¬ (1 ≤ Rtrunc (IZR sampleRate / frequency))%Z) by (rewrite Hpos; lra).
    destruct buffer0; [done|]. simpl in Hlen. lia.
Qed.

(** C4, as the code has it.  For a frequency [> 0] and a sample rate [> 0],
    the ring buffer has [N] cells where [N] is the quotient
    [sampleRate / frequency] truncated to an integer:
    [N <= sampleRate / frequency < N + 1]. *)
Theorem ring_size_truncated (frequency : R) (sampleRate : Z)
    (rng : RandomState R) :
  0 < frequency → (0 < sampleRate)%Z →
  ∃ buffer,
    fst (AcousticGuitar.ringBuffer frequency sampleRate rng) = Ok buffer ∧
    INR (length buffer) <= IZR sampleRate / frequency < INR (length buffer) + 1.
Proof.
  intros Hf Hsr.
  destruct (ringBuffer_R frequency sampleRate rng Hf Hsr)
    as (buffer & Hbuf & Hsize & Hlen).
  exists buffer. split; [done|].
  assert (0 < IZR sampleRate) by by apply IZR_lt.
  assert (0 <= IZR sampleRate / frequency)
    by (apply Rlt_le, Rdiv_lt_0_compat; done).
  destruct (Rtrunc_bound (IZR sampleRate / frequency)) as [_ Hq]; [done|].
  by rewrite Hlen, INR_IZR_INZ, Z2Nat.id.
Qed.

End RealFacts.

(** ** The time axis *)

Section TimeAxis.
Open Scope R_scope.

Lemma lookup_arange_R (n i : nat) :
  (i < n)%nat → np.arange (F:=R) n !! i = Some (INR i).
Proof.
  intros Hi. unfold np.arange.
  rewrite list_lookup_fmap, lookup_seq_lt by done. simpl.
  by rewrite INR_IZR_INZ.
Qed.

(** The points of [np.linspace(start, stop, num)] for [num >= 2]: steps of
    [(stop - start) / (num - 1)] from [start], and [stop] itself at the end. *)
Lemma linspace_R (start stop : R) (num : Z) :
  (2 ≤ num)%Z →
  ∃ l, np.linspace start stop num = Ok l ∧
    length l = Z.to_nat num ∧
    (∀ i : nat, (i < Z.to_nat num - 1)%nat →
       l !! i = Some (INR i * ((stop - start) / IZR (num - 1)) + start)) ∧
    l !! (Z.to_nat num - 1)%nat = Some stop.
Proof.
  intros Hnum. unfold np.linspace.
  destruct (Z.ltb_spec num 0); [lia|].
  destruct (Z.ltb_spec 0 (num - 1)); [|lia].
  destruct (Z.ltb_spec 1 num); [|lia].
  cbv zeta. set (y := if is_zero _ then _ else _).
  assert (length y = Z.to_nat num ∧
          ∀ i : nat, (i < Z.to_nat num)%nat →
            y !! i = Some (INR i * ((stop - start) / IZR (num - 1))))
    as [Hlen Hy].
  { assert (IZR (num - 1) ≠ 0) by (apply not_0_IZR; lia).
    subst y. cbn [is_zero of_int fdiv fmul fsub R_Arith].
    case_bool_decide;
      (split; [by rewrite length_fmap, length_arange|]);
      intros i Hi; rewrite list_lookup_fmap, lookup_arange_R by done;
      simpl; f_equal; by field. }
  clearbody y. eexists. split; [done|]. split_and!.
  - by rewrite length_insert, length_fmap.
  - intros i Hi. rewrite list_lookup_insert_ne by lia.
    rewrite list_lookup_fmap, Hy by lia. done.
  - replace (Z.to_nat num - 1)%nat with (pred (Z.to_nat num)) by lia.
    apply list_lookup_insert_eq. rewrite length_fmap. lia.
Qed.

(** The first point of a time axis is [start]. *)
Lemma linspace_R_head (start stop : R) (num : Z) :
  (1 ≤ num)%Z →
  ∃ l, np.linspace start stop num = Ok l ∧
    length l = Z.to_nat num ∧ l !! 0%nat = Some start.
Proof.
  intros Hnum. destruct (Z.eq_dec num 1%Z) as [->|Hne].
  - eexists. split; [done|]. split; [done|]. simpl. f_equal.
    change (Z.of_nat 0) with 0%Z. lra.
  - destruct (linspace_R start stop num) as (l & Hl & Hlen & Hstep & _); [lia|].
    exists l. split_and!; [done..|].
    rewrite Hstep by lia. f_equal. simpl. lra.
Qed.

End TimeAxis.

(** ** The tone generator *)

Section ToneFacts.
Open Scope R_scope.

(** The samples of a tone of two samples or more: sample [i] is the sine at
    [time[i]], where the time axis runs from [0] to [duration / sampleRate]
    included, in [duration - 1] steps. *)
Lemma Beep_samples (frequency : R) (duration sampleRate : Z) :
  sampleRate ≠ 0%Z → (2 ≤ duration)%Z →
  ∃ out, Beep.getNote frequency duration sampleRate = Ok out ∧
    (∀ i : nat, (i < Z.to_nat duration - 1)%nat →
       out !! i =
       Some (sin (frequency * 2 * PI *
                  (INR i * ((IZR duration / IZR sampleRate - 0)
                            / IZR (duration - 1)) + 0)))) ∧
    out !! (Z.to_nat duration - 1)%nat =
    Some (sin (frequency * 2 * PI * (IZR duration / IZR sampleRate))).
Proof.
  intros Hsr Hd. unfold Beep.getNote.
  change (of_int duration) with (IZR duration).
  rewrite truediv_int_R by done. simpl.
  destruct (linspace_R 0 (IZR duration / IZR sampleRate) duration Hd)
    as (time & -> & Hlen & Hstep & Hlast).
  simpl. eexists. split; [done|]. unfold np.sin, scale. split.
  - intros i Hi. by rewrite !list_lookup_fmap, Hstep.
  - by rewrite !list_lookup_fmap, Hlast.
Qed.

(** C2, at the input where the code departs from it.  At frequency 1, over 2
    samples at sample rate 4, the time axis is [0, 1/2] and not [0, 1/4]:
    the sample of index 1 is [sin pi = 0], where the claim has
    [sin (2 pi 1 / 4) = 1]. *)
Theorem Beep_endpoint :
  ∃ out, Beep.getNote 1 2 4 = Ok out ∧
    out !! 1%nat = Some 0 ∧
    sin (2 * PI * 1 * INR 1 / IZR 4) = 1.
Proof.
  destruct (Beep_samples 1 2 4) as (out & Hrun & _ & Hlast); [done..|].
  exists out. split; [done|]. split.
  - change (Z.to_nat 2 - 1)%nat with 1%nat in Hlast. rewrite Hlast. f_equal.
    replace (1 * 2 * PI * (2 / 4)) with PI by lra. apply sin_PI.
  - replace (2 * PI * 1 * INR 1 / 4) with (PI / 2) by (simpl; lra).
    apply sin_PI2.
Qed.

End ToneFacts.

(** ** The brass generator in exact arithmetic *)

Section BrassFacts.
Open Scope R_scope.

Lemma lookup_partial (frequency : R) (time : list R) (i : nat) (amplitude : Q)
    (j : nat) :
  Trumpet.partial frequency time i amplitude !! j
  = (λ t, Q2R amplitude
          * sin (frequency * IZR (Z.of_nat i + 1) * 2 * PI * t)) <$> time !! j.
Proof.
  unfold Trumpet.partial, scale, np.sin. rewrite !list_lookup_fmap.
  by destruct (time !! j).
Qed.

Lemma length_partial (frequency : R) (time : list R) (i : nat) (amplitude : Q) :
  length (Trumpet.partial frequency time i amplitude) = length time.
Proof. unfold Trumpet.partial. by rewrite length_scale, length_sin, length_scale. Qed.

(** The harmonic sum starts at [0]: every partial is a sine at time [0]. *)
Lemma additive_R (frequency : R) (duration sampleRate : Z) :
  (0 < sampleRate)%Z → (1 ≤ duration)%Z →
  ∃ samples, Trumpet.additive frequency duration sampleRate = Ok samples ∧
    length samples = Z.to_nat duration ∧ samples !! 0%nat = Some 0.
Proof.
  intros Hsr Hd. unfold Trumpet.additive. real_arith.
  rewrite truediv_int_R by lia. real_arith.
  destruct (linspace_R_head 0 (IZR duration / IZR sampleRate) duration Hd)
    as (time & -> & Hlen & Hhead).
  real_arith. unfold np.zeros, np.full.
  destruct (Z.ltb_spec duration 0); [lia|]. real_arith.
  apply (for_returns (λ _ s, length s = Z.to_nat duration ∧ s !! 0%nat = Some 0)).
  - split; [apply length_replicate|]. apply lookup_replicate_2. lia.
  - intros k [i amplitude] s _ [Hs Hs0].
    rewrite inplace_same_length by (rewrite length_partial; congruence).
    eexists. split; [done|]. split.
    + rewrite length_zip_with, length_partial. lia.
    + rewrite lookup_zip_with, Hs0, lookup_partial, Hhead. simpl. f_equal.
      rewrite Rmult_0_r, sin_0. lra.
Qed.

(** The filter returns, and seeds its output with the first input sample. *)
Lemma highPass_R (frequency : R) (duration sampleRate : Z) (samples : list R)
    (s0 : R) :
  0 < frequency → (0 < sampleRate)%Z → (1 ≤ duration)%Z →
  length samples = Z.to_nat duration → samples !! 0%nat = Some s0 →
  ∃ newSamples,
    Trumpet.highPass frequency duration sampleRate samples = Ok newSamples ∧
    length newSamples = Z.to_nat duration ∧ newSamples !! 0%nat = Some s0.
Proof.
  intros Hf Hsr Hd Hlen Hs0. unfold Trumpet.highPass.
  assert (0 < IZR sampleRate) by by apply IZR_lt.
  pose proof PI_RGT_0 as Hpi.
  assert (0 < PI * frequency) by (apply Rmult_lt_0_compat; lra).
  assert (0 < PI * frequency * 32) as HRC by lra.
  real_arith.
  rewrite truediv_R by lra. real_arith.
  rewrite truediv_int_R by lia. real_arith.
  assert (0 < 1 / (PI * frequency * 32)) by (apply Rdiv_lt_0_compat; lra).
  assert (0 < Q2R 1 / IZR sampleRate).
  { apply Rdiv_lt_0_compat; [|done]. unfold Q2R. simpl. lra. }
  rewrite truediv_R by lra. cbn [mbind Result_bind].
  unfold np.zeros, np.full. destruct (Z.ltb_spec duration 0); [lia|].
  cbn [mbind Result_bind].
  apply getitem_Ok in Hs0 as Hget. rewrite Hget. cbn [mbind Result_bind].
  unfold setitem at 1. rewrite decide_True by (rewrite length_replicate; lia).
  cbn [mbind Result_bind].
  apply (for_returns
           (λ _ s, length s = Z.to_nat duration ∧ s !! 0%nat = Some s0)).
  - rewrite length_insert, length_replicate. split; [done|].
    apply list_lookup_insert_eq. rewrite length_replicate. lia.
  - intros k i s Hi [Hs Hhead]. apply lookup_range in Hi as [-> Hi].
    unfold Trumpet.highPassStep.
    destruct (getitem_lt s (1 + k - 1)) as (y1 & -> & _); [lia|].
    destruct (getitem_lt samples (1 + k)) as (x & -> & _); [lia|].
    destruct (getitem_lt samples (1 + k - 1)) as (x1 & -> & _); [lia|].
    simpl. unfold setitem. rewrite decide_True by lia.
    eexists. split; [done|]. rewrite length_insert. split; [done|].
    by rewrite list_lookup_insert_ne by lia.
Qed.

End BrassFacts.

(** ** The ADSR curve *)

Section Envelope.
Context {F : Type} `{Arith F}.

(** The curve is its four segments, one after the other. *)
Lemma adsr_Ok (attackLength decayLength sustainLength releaseLength : Z) :
  (0 ≤ attackLength)%Z → (0 ≤ decayLength)%Z →
  (0 ≤ sustainLength)%Z → (0 ≤ releaseLength)%Z →
  ∃ attack decay release : list F,
    np.linspace (of_int 0) Trumpet.peak attackLength = Ok attack ∧
    np.linspace Trumpet.peak Trumpet.sustain decayLength = Ok decay ∧
    np.linspace Trumpet.sustain (of_int 0) releaseLength = Ok release ∧
    Trumpet.adsr attackLength decayLength sustainLength releaseLength
    = Ok (((attack ++ decay)
           ++ replicate (Z.to_nat sustainLength) Trumpet.sustain) ++ release).
Proof.
  intros Ha Hd Hs Hr. unfold Trumpet.adsr.
  destruct (linspace_returns (of_int 0) Trumpet.peak attackLength Ha)
    as [attack Hattack].
  destruct (linspace_returns Trumpet.peak Trumpet.sustain decayLength Hd)
    as [decay Hdecay].
  destruct (linspace_returns Trumpet.sustain (of_int 0) releaseLength Hr)
    as [release Hrelease].
  exists attack, decay, release. rewrite Hattack, Hdecay, Hrelease.
  split_and!; [done..|]. cbn [mbind Result_bind]. unfold np.full.
  by destruct (Z.ltb_spec sustainLength 0); [lia|].
Qed.

(** On its third segment the curve is flat. *)
Lemma lookup_plateau (attack decay release : list F) (n i : nat) (v : F) :
  length attack + length decay ≤ i < length attack + length decay + n →
  (((attack ++ decay) ++ replicate n v) ++ release) !! i = Some v.
Proof.
  intros Hi.
  rewrite lookup_app_l by (rewrite !length_app, length_replicate; lia).
  rewrite lookup_app_r by (rewrite length_app; lia).
  apply lookup_replicate_2. rewrite length_app. lia.
Qed.

End Envelope.

Section BrassRun.
Open Scope R_scope.

Lemma lengths_R (duration sampleRate : Z) :
  (0 < sampleRate)%Z →
  ∃ a d r : Z,
    (0 ≤ a)%Z ∧ (0 ≤ d)%Z ∧ (0 ≤ r)%Z ∧
    Rtrunc (Q2R 0.075 * IZR sampleRate) = a ∧
    Rtrunc (Q2R 0.3 * IZR sampleRate) = d ∧
    Rtrunc (Q2R 0.2 * IZR sampleRate) = r ∧
    Trumpet.lengths (F:=R) duration sampleRate
    = Ok (a, d, (duration - a - d - r)%Z, r).
Proof.
  intros Hsr. assert (0 < IZR sampleRate) by by apply IZR_lt.
  assert (∀ q : Q, 0 <= Q2R q → (0 ≤ Rtrunc (Q2R q * IZR sampleRate))%Z) as Hpos.
  { intros q Hq. apply Rtrunc_bound, Rmult_le_pos; lra. }
  eexists _, _, _. split_and!; [| | |done..]; apply Hpos; unfold Q2R; simpl; lra.
Qed.

(** The run of the brass generator on a note of at least one sample. *)
Lemma Trumpet_run (frequency : R) (duration sampleRate : Z) :
  0 < frequency → (0 < sampleRate)%Z → (1 ≤ duration)%Z →
  ∃ (harmonics samples : list R) (a d r : Z),
    Trumpet.additive frequency duration sampleRate = Ok harmonics ∧
    harmonics !! 0%nat = Some 0 ∧
    Trumpet.filtered frequency duration sampleRate = Ok samples ∧
    samples !! 0%nat = Some 0 ∧
    Trumpet.lengths (F:=R) duration sampleRate
    = Ok (a, d, (duration - a - d - r)%Z, r) ∧
    (0 ≤ a)%Z ∧ (0 ≤ d)%Z ∧ (0 ≤ r)%Z ∧
    ((duration - a - d - r < 0)%Z →
     Trumpet.getNote frequency duration sampleRate = Ok samples) ∧
    ((0 ≤ duration - a - d - r)%Z →
     ∃ adsr,
       Trumpet.adsr a d (duration - a - d - r) r = Ok adsr ∧
       Trumpet.getNote frequency duration sampleRate
       = Ok (zip_with Rmult samples adsr) ∧
       length adsr = length samples ∧
       (∀ i : nat, (a + d ≤ Z.of_nat i < duration - r)%Z →
                   adsr !! i = Some Trumpet.sustain) ∧
       ((0 < a)%Z → adsr !! 0%nat = Some 0)).
Proof.
  intros Hf Hsr Hd.
  destruct (additive_R frequency duration sampleRate Hsr Hd)
    as (harmonics & Hadd & Hlen & Hhead).
  destruct (highPass_R frequency duration sampleRate harmonics 0
              Hf Hsr Hd Hlen Hhead) as (samples & Hfilter & Hlen' & Hhead').
  destruct (lengths_R duration sampleRate Hsr)
    as (a & d & r & Ha & Hdl & Hr & Hia & Hid & Hir & Hlengths).
  assert (Hfiltered : Trumpet.filtered frequency duration sampleRate = Ok samples).
  { unfold Trumpet.filtered. by rewrite Hadd. }
  exists harmonics, samples, a, d, r. split_and!; [done..| |].
  - intros Hs. unfold Trumpet.getNote. rewrite Hfiltered. real_arith.
    rewrite Hia, Hid, Hir. real_arith.
    by destruct (Z.leb_spec 0 (duration - a - d - r)); [lia|].
  - intros Hs.
    destruct (adsr_Ok (F:=R) a d (duration - a - d - r) r Ha Hdl Hs Hr)
      as (attack & decay & release & Hattack & Hdecay & Hrelease & Hadsr).
    eexists. split; [done|].
    pose proof (linspace_Ok _ _ _ _ Hattack) as [_ Hla].
    pose proof (linspace_Ok _ _ _ _ Hdecay) as [_ Hld].
    pose proof (linspace_Ok _ _ _ _ Hrelease) as [_ Hlr].
    assert (length (((attack ++ decay)
                     ++ replicate (Z.to_nat (duration - a - d - r)) Trumpet.sustain)
                    ++ release) = length samples) as Hsame.
    { rewrite !length_app, length_replicate. lia. }
    split_and!.
    + unfold Trumpet.getNote. rewrite Hfiltered. real_arith.
      rewrite Hia, Hid, Hir. real_arith.
      destruct (Z.leb_spec 0 (duration - a - d - r)); [|lia].
      rewrite Hadsr. real_arith. by apply inplace_same_length.
    + done.
    + intros i Hi. apply lookup_plateau. lia.
    + intros Hpos.
      destruct (linspace_R_head 0 Trumpet.peak a) as (attack' & Hattack' & _ & H0);
        [lia|].
      real_arith. assert (attack' = attack) as -> by congruence.
      rewrite <- !app_assoc. by apply lookup_app_l_Some.
Qed.

End BrassRun.

Section BrassClaims.
Open Scope R_scope.

(** C7.  In exact arithmetic, for a frequency [> 0], a sample rate [> 0] and
    a note of at least one sample whose sustain length is [>= 0]: the first
    sample of the note is [0], and every sample of the sustain plateau
    (indices from attack + decay, over the sustain length) is the filtered
    sample of that index times [0.08]. *)
Theorem Trumpet_envelope (frequency : R)
    (duration sampleRate attackLength decayLength sustainLength releaseLength : Z) :
  0 < frequency → (0 < sampleRate)%Z → (1 ≤ duration)%Z →
  Trumpet.lengths (F:=R) duration sampleRate
    = Ok (attackLength, decayLength, sustainLength, releaseLength) →
  (0 ≤ sustainLength)%Z →
  ∃ samples out,
    Trumpet.filtered frequency duration sampleRate = Ok samples ∧
    Trumpet.getNote frequency duration sampleRate = Ok out ∧
    out !! 0%nat = Some 0 ∧
    ∀ (i : nat) (x : R),
      (attackLength + decayLength ≤ Z.of_nat i
       < attackLength + decayLength + sustainLength)%Z →
      samples !! i = Some x → out !! i = Some (x * 0.08).
Proof.
  intros Hf Hsr Hd Hlengths Hs.
  destruct (Trumpet_run frequency duration sampleRate Hf Hsr Hd)
    as (harmonics & samples & a & d & r & _ & _ & Hfiltered & Hhead
        & Hlengths' & _ & _ & _ & _ & Hlong).
  rewrite Hlengths in Hlengths'. injection Hlengths' as -> -> -> ->.
  destruct (Hlong Hs) as (adsr & _ & Hrun & Hlen & Hplateau & _).
  exists samples, (zip_with Rmult samples adsr). split_and!; [done..| |].
  - rewrite lookup_zip_with, Hhead. simpl.
    destruct (lookup_lt_is_Some_2 adsr 0%nat) as [e0 ->].
    + rewrite Hlen. by apply lookup_lt_Some in Hhead.
    + simpl. f_equal. lra.
  - intros i x Hi Hx. rewrite lookup_zip_with, Hx, Hplateau by lia. simpl.
    f_equal. unfold Trumpet.sustain, Trumpet.peak. real_arith.
    unfold Q2R. simpl. lra.
Qed.


End BrassClaims.

(** ** The claims at concrete inputs *)

Section Inputs.
Open Scope R_scope.

(** At 44100 Hz the attack, decay and release take 3307, 13230 and 8820
    samples. *)
Lemma lengths_44100 (duration : Z) :
  Trumpet.lengths (F:=R) duration 44100
  = Ok (3307, 13230, duration - 3307 - 13230 - 8820, 8820)%Z.
Proof.
  assert (Rtrunc (Q2R 0.075 * 44100) = 3307%Z) as Ha
    by (apply Rtrunc_eq; unfold Q2R; simpl; lra).
  assert (Rtrunc (Q2R 0.3 * 44100) = 13230%Z) as Hd
    by (apply Rtrunc_eq; unfold Q2R; simpl; lra).
  assert (Rtrunc (Q2R 0.2 * 44100) = 8820%Z) as Hr
    by (apply Rtrunc_eq; unfold Q2R; simpl; lra).
  unfold Trumpet.lengths. real_arith. by rewrite Ha, Hd, Hr.
Qed.

(** The string in double precision, on the draws 0, 1, 2, ...: at frequency
    4 and sample rate 9 the ring buffer is [0, 1], and five turns of the loop
    emit the averages below. *)
Example string_five_samples :
  fst (AcousticGuitar.getNote (of_int 4) 5 9 ramp)
  = Ok [of_int 0; of_Q 0.5; of_Q 0.25; of_Q 0.375; of_Q 0.3125].
Proof. vm_compute. reflexivity. Qed.


(** At 440 Hz and 44100 Hz the ring buffer has 100 cells: here, on the draws
    0, 1, 2, ... *)
Lemma ring_of_100 :
  fst (AcousticGuitar.ringBuffer 440 44100 count) = Ok (count <$> seq 0 100).
Proof.
  unfold AcousticGuitar.ringBuffer. real_arith.
  rewrite truediv_R by lra. real_arith.
  rewrite (Rtrunc_eq (IZR 44100 / 440) 100) by lra. reflexivity.
Qed.

(** A tone of two samples has two samples. *)
Lemma getNote_length_witness :
  ∃ out, getNote Beep 1 2 4 count = (Ok out, count) ∧
         Z.of_nat (length out) = 2%Z.
Proof.
  destruct (Beep_samples 1 2 4) as (out & Hrun & _); [done..|].
  assert (getNote Beep 1 2 4 count = (Ok out, count)) as Hnote
    by (simpl; by rewrite Hrun).
  exists out. split; [done|].
  apply (getNote_length Beep 1 2%Z 4%Z count count out); [lia|done].
Defined.

(** The A above middle C at 44100 Hz, on the draws 0, 1, 2, ...: the ring
    buffer takes the first 100 of them and the string generator returns one
    second of sound. *)
Lemma string_returns_witness :
  0 < 440 ∧ (0 ≤ 44100)%Z ∧ (0 < 44100 ≤ 2 ^ 53)%Z ∧
  fst (AcousticGuitar.ringBuffer 440 44100 count) = Ok (count <$> seq 0 100) ∧
  440 <= IZR 44100 ∧
  ∃ out,
    fst (AcousticGuitar.getNote 440 44100 44100 count) = Ok out ∧
    Z.of_nat (length out) = 44100%Z.
Proof.
  assert (0 < 44100 ≤ 2 ^ 53)%Z as Hsr by lia.
  split; [lra|]. split; [lia|]. split; [exact Hsr|].
  split; [exact ring_of_100|]. split; [lra|].
  apply (string_returns 440 44100 44100 count (count <$> seq 0 100));
    [lra|lia|exact Hsr|exact ring_of_100|lra].
Defined.

(** C3 fails at a frequency above the sample rate: 50000 Hz at 44100 Hz,
    for one second.  The ring buffer is empty and the call raises. *)
Lemma string_above_sample_rate :
  0 < 50000 ∧ (0 ≤ 44100)%Z ∧ (0 < 44100)%Z ∧
  fst (AcousticGuitar.getNote 50000 44100 44100 count) = Raise IndexError.
Proof.
  split_and!; [lra|lia|lia|].
  destruct (ringBuffer_R 50000 44100 count) as (buffer & Hbuf & _ & Hlen);
    [lra|lia|].
  rewrite (Rtrunc_eq (44100 / 50000) 0) in Hlen by lra.
  apply nil_length_inv in Hlen as ->.
  unfold AcousticGuitar.getNote, AcousticGuitar.getBaseStringSound.
  destruct (AcousticGuitar.ringBuffer _ _ _) as [r rng1]. simpl in *.
  by subst r.
Qed.

(** At frequency 4 and sample rate 7 the ring buffer has one cell. *)
Lemma ring_size_truncated_witness :
  0 < 4 ∧ (0 < 7)%Z ∧
  ∃ buffer,
    fst (AcousticGuitar.ringBuffer 4 7 count) = Ok buffer ∧
    INR (length buffer) <= IZR 7 / 4 < INR (length buffer) + 1.
Proof.
  split_and!; [lra|lia|].
  apply (ring_size_truncated 4 7 count); [lra|lia].
Defined.

(** C4 fails at frequency 4 and sample rate 7: the quotient is 1.75, the
    ring buffer has 1 cell, and 2 is nearer to 1.75 than 1 is. *)
Lemma ring_size_not_rounded :
  0 < 4 ∧ (0 < 7)%Z ∧
  ∃ buffer,
    fst (AcousticGuitar.ringBuffer 4 7 count) = Ok buffer ∧
    length buffer = 1%nat ∧
    ¬ nearest_integer (IZR 7 / 4) (Z.of_nat (length buffer)).
Proof.
  split_and!; [lra|lia|].
  destruct (ringBuffer_R 4 7 count) as (buffer & Hbuf & _ & Hlen); [lra|lia|].
  rewrite (Rtrunc_eq (7 / 4) 1) in Hlen by lra.
  exists buffer. split_and!; [done..|].
  rewrite Hlen. intros Hnear. specialize (Hnear 2%Z).
  change (Z.of_nat (Z.to_nat 1)) with 1%Z in Hnear.
  rewrite (Rabs_pos_eq (7 / 4 - 1)), (Rabs_left (7 / 4 - 2)) in Hnear; lra.
Qed.

(** The A above middle C at 44100 Hz, in double precision: a ring buffer of
    100 cells; over 3 samples the delay line stays out of the way. *)
Lemma string_without_feedback_witness :
  fst (AcousticGuitar.ringBuffer (of_int 440) 44100 ramp)
    = Ok (ramp <$> seq 0 100) ∧
  ramp <$> seq 0 100 ≠ [] ∧
  (3 < 200)%Z ∧
  ∃ out, fst (AcousticGuitar.getNote (of_int 440) 3 44100 ramp) = Ok out ∧
         out !! 2%nat = Some (of_Q 1.25).
Proof.
  assert (fst (AcousticGuitar.ringBuffer (of_int 440) 44100 ramp)
          = Ok (ramp <$> seq 0 100)) as Hbuf by (vm_compute; reflexivity).
  split_and!; [done|done|lia|].
  destruct (string_without_feedback (of_int 440) 3 44100 ramp
              (ramp <$> seq 0 100) Hbuf ltac:(done) ltac:(lia))
    as (out & Hrun & _).
  exists out. split; [done|].
  rewrite <- (f_equal (λ r, match r with Ok l => l !! 2%nat | _ => None end) Hrun).
  vm_compute. reflexivity.
Defined.

(** C5 fails at a frequency above the sample rate, in double precision:
    50000 Hz at 44100 Hz with a duration of 0 raises, and returns no empty
    note. *)
Lemma string_no_empty_note :
  fst (AcousticGuitar.getNote (of_int 50000) 0 44100 ramp) = Raise IndexError ∧
  fst (AcousticGuitar.getNote (of_int 50000) 0 44100 ramp) ≠ Ok [].
Proof.
  assert (fst (AcousticGuitar.getNote (of_int 50000) 0 44100 ramp)
          = Raise IndexError) as Hrun by (vm_compute; reflexivity).
  split; [done|]. by rewrite Hrun.
Qed.

(** A note of 1000 samples at 44100 Hz is shorter than attack + decay +
    release. *)
Lemma Trumpet_short_note_witness :
  Trumpet.lengths (F:=R) 1000 44100 = Ok (3307, 13230, -24357, 8820)%Z ∧
  (-24357 < 0)%Z ∧
  Trumpet.getNote 440 1000 44100 = Trumpet.filtered 440 1000 44100.
Proof.
  pose proof (lengths_44100 1000) as Hlengths.
  split_and!; [done|lia|].
  apply (Trumpet_short_note 440 1000 44100 3307 13230 (-24357) 8820);
    [done|lia].
Defined.

(** A note of 2 seconds at 44100 Hz has a sustain plateau of 62843
    samples. *)
Lemma Trumpet_envelope_witness :
  0 < 440 ∧ (0 < 44100)%Z ∧ (1 ≤ 88200)%Z ∧
  Trumpet.lengths (F:=R) 88200 44100 = Ok (3307, 13230, 62843, 8820)%Z ∧
  (0 ≤ 62843)%Z ∧
  ∃ samples out,
    Trumpet.filtered 440 88200 44100 = Ok samples ∧
    Trumpet.getNote 440 88200 44100 = Ok out ∧
    out !! 0%nat = Some 0 ∧
    ∀ (i : nat) (x : R),
      (3307 + 13230 ≤ Z.of_nat i < 3307 + 13230 + 62843)%Z →
      samples !! i = Some x → out !! i = Some (x * 0.08).
Proof.
  pose proof (lengths_44100 88200) as Hlengths.
  split_and!; [lra|lia|lia|done|lia|].
  apply (Trumpet_envelope 440 88200 44100 3307 13230 62843 8820);
    [lra|lia|lia|done|lia].
Defined.

(** In double precision the two channels of the sample 0.2 hold the single
    nearest to 0.1, which is not the double 0.2 / 2: C8 fails there. *)
Lemma duplicateChannel_rounds :
  ∃ left right : float,
    duplicateChannel [of_Q 0.2] = [(left, right)] ∧
    left ≠ (of_Q 0.2 / of_int 2)%fl.
Proof.
  eexists _, _. split; [reflexivity|].
  intros Heq. apply (f_equal Prim2SF) in Heq. vm_compute in Heq. discriminate.
Qed.



End Inputs.

(** * Further properties of the code *)

(** ** The loop of the string *)

Section StringLoop.
Context {F : Type} `{Arith F}.
Import AcousticGuitar.

(** One step of a cursor round a ring of [n] cells. *)
Lemma succ_mod (n k : nat) :
  0 < n →
  S k `mod` n = if decide (n ≤ S (k `mod` n)) then 0 else S (k `mod` n).
Proof.
  intros Hn. pose proof (Nat.mod_upper_bound k n ltac:(lia)) as Hlt.
  pose proof (Nat.div_mod_eq k n) as Hk.
  destruct (decide (n ≤ S (k `mod` n))) as [Hwrap|Hstay].
  - symmetry. apply (Nat.mod_unique _ _ (S (k `div` n))); lia.
  - symmetry. apply (Nat.mod_unique _ _ (k `div` n)); lia.
Qed.

Lemma tick_cycling (n k : nat) (st : Pluck (F:=F)) :
  cycling n k st → ∃ st', tick st = Ok st' ∧ cycling n (S k) st'.
Proof.
  intros (Hst & Hc & Hitems).
  destruct (tick_returns n k st Hst) as (st' & Hrun & Hst').
  exists st'. split; [done|]. split; [done|].
  destruct Hst as (Hlen & Hlt & Hmax & Hsize & Hout).
  apply tick_Ok in Hrun
    as (filtered & current & q & _ & Hfb & Hput & Hsamples & _ & _ & _ & Hc').
  split.
  - rewrite Hc', Hlen, Hc. symmetry. apply succ_mod. lia.
  - unfold feedback, Queue_.put, Queue_.get, Queue_.full, Queue_.qsize in *.
    rewrite Hmax, Hitems in *. rewrite Hsamples.
    rewrite length_drop, Hout in *.
    destruct (Nat.leb_spec 200 (k - (k - 200))) as [Hfull|Hfull];
      cbn [andb Nat.ltb Nat.leb] in Hfb.
    + destruct (drop (k - 200) (samples st)) as [|delayed rest] eqn:Hdrop;
        [done|]. cbn [mbind Result_bind] in Hfb. injection Hfb as _ <-.
      cbn [maxsize items length] in Hput.
      assert (length (delayed :: rest) = 200) as Hrest
        by (rewrite <- Hdrop, length_drop; lia).
      cbn [length] in Hrest.
      destruct (Nat.leb_spec 200 (length rest)); [lia|].
      cbn [andb Nat.ltb Nat.leb] in Hput. injection Hput as <-.
      cbn [items].
      rewrite drop_app_le by lia.
      replace (S k - 200) with (k - 200 + 1) by lia.
      by rewrite <- (drop_drop (samples st) 1 (k - 200)), Hdrop.
    + injection Hfb as _ <-. rewrite Hmax, Hitems, length_drop, Hout in Hput.
      destruct (Nat.leb_spec 200 (k - (k - 200))); [lia|].
      cbn [andb Nat.ltb Nat.leb] in Hput. injection Hput as <-.
      cbn [items]. by replace (S k - 200) with 0 by lia;
        replace (k - 200) with 0 by lia.
Qed.

(** The loop over a ring buffer of at least one cell, for [k] turns. *)
Lemma ticks_cycling (buffer0 : list F) (b0 : F) (k : nat) :
  buffer0 !! 0 = Some b0 →
  ∃ st,
    for_ (range 0 (Z.of_nat k)) (λ _, tick)
         (mkPluck [] buffer0 b0 (Queue_.new 200) 0) = Ok st ∧
    cycling (length buffer0) k st.
Proof.
  intros Hb0. apply lookup_lt_Some in Hb0 as Hlen.
  destruct (for_returns (cycling (length buffer0))
              (λ _ : nat, tick) (range 0 (Z.of_nat k))
              (mkPluck [] buffer0 b0 (Queue_.new 200) 0))
    as (st & Hrun & Hst).
  - split; [|split]; [|by rewrite Nat.Div0.mod_0_l|done].
    repeat split; simpl; lia.
  - intros i x st _ Hst. by apply tick_cycling.
  - exists st. rewrite length_range, Nat.sub_0_r, Nat2Z.id in Hst. done.
Qed.

End StringLoop.

Section StringEcho.
Context {F : Type} `{Arith F}.
Import AcousticGuitar.

(** X1.  Over a ring buffer of at least one cell the loop of the string
    generator takes any number [k] of turns without raising or blocking, and
    after them: the ring buffer has the size it started with, the cursor is
    [k] modulo that size, [k] samples were emitted, and the delay line holds
    the last [min k 200] of them, never more than its capacity. *)
Theorem string_loop_invariant (buffer0 : list F) (b0 : F) (k : nat) :
  buffer0 !! 0 = Some b0 →
  ∃ st,
    for_ (range 0 (Z.of_nat k)) (λ _, tick)
         (mkPluck [] buffer0 b0 (Queue_.new 200) 0) = Ok st ∧
    length (buffer st) = length buffer0 ∧
    bufferCounter st = k `mod` length buffer0 ∧
    length (samples st) = k ∧
    items (delayLine st) = drop (k - 200) (samples st) ∧
    Queue_.qsize (delayLine st) = k `min` 200.
Proof.
  intros Hb0.
  destruct (ticks_cycling buffer0 b0 k Hb0)
    as (st & Hrun & (Hlen & _ & _ & Hsize & Hout) & Hc & Hitems).
  by exists st.
Qed.

(** X2.  From turn 200 on the delay line is full and the delay effect is
    taken: the sample emitted at turn [k >= 200] is the mean of the low-pass
    value of that turn and of 0.999 times the sample emitted 200 turns
    earlier. *)
Theorem string_echo (frequency : F) (duration sampleRate : Z)
    (rng : RandomState F) (buffer0 : list F) (k : nat) :
  fst (ringBuffer frequency sampleRate rng) = Ok buffer0 →
  buffer0 ≠ [] →
  200 ≤ k → (Z.of_nat k < duration)%Z →
  ∃ out b0 st filtered delayed,
    fst (AcousticGuitar.getNote frequency duration sampleRate rng) = Ok out ∧
    buffer0 !! 0 = Some b0 ∧
    for_ (range 0 (Z.of_nat k)) (λ _, tick)
         (mkPluck [] buffer0 b0 (Queue_.new 200) 0) = Ok st ∧
    lowPass st = Ok filtered ∧
    out !! (k - 200) = Some delayed ∧
    out !! k = Some ((filtered + delayed * of_Q 0.999) / of_int 2)%fl.
Proof.
  intros Hbuf Hne Hk Hlt.
  destruct (pluck_returns buffer0 duration Hne)
    as (b0 & stN & Hb0 & HrunN & _ & Hpluck).
  destruct (ticks_cycling buffer0 b0 k Hb0)
    as (st & Hrun & (_ & _ & Hmax & Hsize & Hout) & _ & Hitems).
  rewrite (range_split k duration Hlt), for_app, Hrun in HrunN.
  simpl in HrunN. inv_Ok.
  match goal with Ht : tick st = Ok ?s |- _ =>
    rename s into st1;
    apply tick_Ok in Ht
      as (filtered & current & q & Hlow & Hfb & _ & Hsamples & _) end.
  apply ticks_extend in HrunN.
  assert (∃ delayed, samples st !! (k - 200) = Some delayed ∧
            current = ((filtered + delayed * of_Q 0.999) / of_int 2)%fl)
    as (delayed & Hdelayed & ->).
  { unfold feedback, Queue_.get, Queue_.full, Queue_.qsize in *.
    rewrite Hmax, Hitems, length_drop, Hout in Hfb.
    destruct (Nat.leb_spec 200 (k - (k - 200))); [|lia].
    cbn [andb Nat.ltb Nat.leb] in Hfb.
    destruct (drop (k - 200) (samples st)) as [|delayed rest] eqn:Hdrop.
    - apply (f_equal length) in Hdrop. rewrite length_drop in Hdrop.
      simpl in Hdrop. lia.
    - cbn [mbind Result_bind] in Hfb. injection Hfb as <- _.
      exists delayed. split; [|done].
      by rewrite <- (Nat.add_0_r (k - 200)), <- lookup_drop, Hdrop. }
  exists (samples stN), b0, st, filtered, delayed. split_and!; [|done..| |].
  - unfold AcousticGuitar.getNote, getBaseStringSound.
    destruct (ringBuffer _ _ _) as [r rng1]. simpl in *. by subst r.
  - eapply prefix_lookup_Some; [|done].
    rewrite Hsamples. by apply lookup_app_l_Some.
  - eapply prefix_lookup_Some; [|done].
    rewrite Hsamples, lookup_app_r, Hout, Nat.sub_diag by lia. done.
Qed.

End StringEcho.

(** ** The string in exact arithmetic *)

Section StringReal.
Open Scope R_scope.
Import AcousticGuitar.

(** The ring buffer and the random source it leaves. *)
Lemma ringBuffer_draws (frequency : R) (sampleRate : Z) (rng : RandomState R) :
  0 < frequency → (0 ≤ sampleRate)%Z →
  ringBuffer frequency sampleRate rng
  = (Ok (rng <$> seq 0 (Z.to_nat (Rtrunc (IZR sampleRate / frequency)))),
     λ k, rng (Z.to_nat (Rtrunc (IZR sampleRate / frequency)) + k)%nat).
Proof.
  intros Hf Hsr. unfold ringBuffer.
  assert (0 <= IZR sampleRate) by by apply IZR_le.
  assert (0 <= IZR sampleRate / frequency)
    by (apply Rmult_le_pos; [done|by apply Rlt_le, Rinv_0_lt_compat]).
  destruct (Rtrunc_bound (IZR sampleRate / frequency)) as [Hsize _]; [done|].
  real_arith. rewrite truediv_R by lra. real_arith. unfold standard_normal.
  by destruct (Z.ltb_spec (Rtrunc (IZR sampleRate / frequency)) 0); [lia|].
Qed.

Lemma Rabs_within (x M : R) : Rabs x <= M → - M <= x <= M.
Proof. unfold Rabs. destruct (Rcase_abs x); lra. Qed.

(** A note of the string generator, for a frequency that does not exceed
    the sample rate. *)
Lemma string_note_R (frequency : R) (duration sampleRate : Z)
    (rng : RandomState R) :
  0 < frequency → frequency <= IZR sampleRate →
  ∃ out,
    fst (AcousticGuitar.getNote frequency duration sampleRate rng) = Ok out ∧
    pluck (rng <$> seq 0 (Z.to_nat (Rtrunc (IZR sampleRate / frequency))))
          duration = Ok out.
Proof.
  intros Hf Hle.
  assert (0 < sampleRate)%Z as Hsr by (apply lt_IZR; lra).
  pose proof (proj2 (ring_size_positive frequency sampleRate Hf Hsr) Hle) as Hn.
  unfold AcousticGuitar.getNote, getBaseStringSound.
  rewrite ringBuffer_draws by (done || lia). cbn [fst mbind Result_bind].
  destruct (pluck_returns
              (rng <$> seq 0 (Z.to_nat (Rtrunc (IZR sampleRate / frequency))))
              duration) as (_ & st & _ & _ & _ & Hrun).
  - intros Hnil. apply (f_equal length) in Hnil.
    rewrite length_fmap, length_seq in Hnil. simpl in Hnil. lia.
  - by exists (samples st).
Qed.

(** One turn of the loop keeps every value it holds within [-M, M]. *)
Lemma tick_bounded (M : R) (st st' : Pluck (F:=R)) :
  let within := λ x : R, - M <= x <= M in
  Forall within (buffer st) → within (last st) →
  Forall within (items (delayLine st)) → Forall within (samples st) →
  tick st = Ok st' →
  Forall within (buffer st') ∧ within (last st') ∧
  Forall within (items (delayLine st')) ∧ Forall within (samples st').
Proof.
  intros within Hbuffer Hlast Hitems Hsamples Hrun.
  apply tick_Ok in Hrun
    as (filtered & current & q & Hlow & Hfb & Hput & -> & -> & _ & -> & _).
  unfold lowPass in Hlow. inv_Ok.
  match goal with Hg : getitem _ _ = Ok ?b |- _ =>
    apply getitem_Ok in Hg;
    pose proof (proj1 (Forall_lookup within (buffer st)) Hbuffer _ _ Hg) as Hb
  end.
  real_arith. subst filtered. unfold within in Hlast, Hb.
  assert (within current ∧ Forall within (items q)) as [Hcurrent Hq].
  { unfold feedback, Queue_.get in Hfb.
    destruct (Queue_.full (delayLine st)).
    - destruct (items (delayLine st)) as [|delayed rest]; [done|].
      real_arith. injection Hfb as <- <-.
      apply Forall_cons in Hitems as [Hdelayed Hrest]. split; [|done].
      unfold within in *. unfold Q2R. simpl. lra.
    - injection Hfb as <- <-. split; [|done]. unfold within. lra. }
  unfold Queue_.put in Hput. destruct (Queue_.full q); [done|].
  injection Hput as <-. cbn [items].
  split; [by apply Forall_insert|]. split; [done|].
  split; (apply Forall_app; split; [done|by apply Forall_singleton]).
Qed.

Lemma pluck_bounded (M : R) (buffer0 : list R) (duration : Z) (out : list R) :
  Forall (λ x, - M <= x <= M) buffer0 →
  pluck buffer0 duration = Ok out →
  Forall (λ x, - M <= x <= M) out.
Proof.
  intros Hbuffer Hrun. unfold pluck in Hrun. inv_Ok. subst out.
  match goal with Hg : getitem _ _ = Ok ?b |- _ =>
    apply getitem_Ok in Hg;
    pose proof (proj1 (Forall_lookup _ buffer0) Hbuffer _ _ Hg) as Hb
  end.
  match goal with Hfor : for_ _ _ _ = Ok _ |- _ => rename Hfor into Hloop end.
  apply (for_invariant
           (λ _ st, Forall (λ x, - M <= x <= M) (buffer st) ∧
                    (- M <= last st <= M) ∧
                    Forall (λ x, - M <= x <= M) (items (delayLine st)) ∧
                    Forall (λ x, - M <= x <= M) (samples st))) in Hloop.
  - by destruct Hloop as (_ & _ & _ & ?).
  - split; [done|]. split; [done|]. split; by apply Forall_nil.
  - intros k _ st st' _ (? & ? & ? & ?) Htick. by eapply tick_bounded.
Qed.

(** X3.  In exact arithmetic the string generator never exceeds its seed:
    when every draw of the random source lies within [M] of zero, so does
    every sample of the note, with or without the delay effect. *)
Theorem string_bounded (frequency : R) (duration sampleRate : Z)
    (rng : RandomState R) (M : R) (out : list R) :
  (∀ k, Rabs (rng k) <= M) →
  fst (AcousticGuitar.getNote frequency duration sampleRate rng) = Ok out →
  ∀ (i : nat) (x : R), out !! i = Some x → Rabs x <= M.
Proof.
  intros Hrng Hrun i x Hx.
  unfold AcousticGuitar.getNote, getBaseStringSound, ringBuffer in Hrun.
  destruct (truediv _ _ ≫= _) as [size| |]; [|done..].
  unfold standard_normal in Hrun.
  destruct (size <? 0)%Z; [done|]. cbn [fst mbind Result_bind] in Hrun.
  apply (pluck_bounded M) in Hrun.
  - apply Rabs_le. by apply (proj1 (Forall_lookup _ out) Hrun i x).
  - apply Forall_fmap, Forall_forall. intros k _. simpl.
    apply Rabs_within, Hrng.
Qed.

End StringReal.

Section StringDraws.
Context {F : Type} `{Arith F}.
Import AcousticGuitar.


End StringDraws.

(** ** The instruments at the edges of their inputs *)

Section Returns.
Context {F : Type} `{Arith F} `{Trig F}.

(** The tone generator returns for every sample rate but 0 and every
    duration [>= 0]. *)
Lemma Beep_returns (frequency : F) (duration sampleRate : Z) :
  sampleRate ≠ 0%Z → (0 ≤ duration)%Z →
  ∃ out, Beep.getNote frequency duration sampleRate = Ok out.
Proof.
  intros Hsr Hd. unfold Beep.getNote, truediv_int.
  destruct (Z.eqb_spec sampleRate 0); [done|]. cbn [mbind Result_bind].
  destruct (linspace_returns (of_int 0)
              (of_int duration / of_int sampleRate)%fl duration Hd)
    as [time ->].
  by eexists.
Qed.

(** So does the harmonic sum of the brass generator. *)
Lemma additive_returns (frequency : F) (duration sampleRate : Z) :
  sampleRate ≠ 0%Z → (0 ≤ duration)%Z →
  ∃ samples, Trumpet.additive frequency duration sampleRate = Ok samples ∧
             length samples = Z.to_nat duration.
Proof.
  intros Hsr Hd. unfold Trumpet.additive, truediv_int.
  destruct (Z.eqb_spec sampleRate 0); [done|]. cbn [mbind Result_bind].
  destruct (linspace_returns (of_int 0)
              (of_int duration / of_int sampleRate)%fl duration Hd)
    as [time Htime].
  rewrite Htime. apply linspace_Ok in Htime as [_ Hlen].
  cbn [mbind Result_bind]. unfold np.zeros, np.full.
  destruct (Z.ltb_spec duration 0); [lia|]. cbn [mbind Result_bind].
  apply (for_returns (λ _ s, length s = Z.to_nat duration)).
  - apply length_replicate.
  - intros k [i amplitude] s _ Hs.
    assert (length (Trumpet.partial frequency time i amplitude) = length s)
      as Hpartial.
    { unfold Trumpet.partial. rewrite length_scale, length_sin, length_scale.
      congruence. }
    rewrite inplace_same_length by done.
    eexists. split; [done|]. rewrite length_zip_with. lia.
Qed.

(** A negative duration is refused by the time axis. *)
Lemma Beep_negative (frequency : F) (duration sampleRate : Z) :
  sampleRate ≠ 0%Z → (duration < 0)%Z →
  Beep.getNote frequency duration sampleRate = Raise ValueError.
Proof.
  intros Hsr Hd. unfold Beep.getNote, truediv_int, np.linspace.
  destruct (Z.eqb_spec sampleRate 0); [done|]. cbn [mbind Result_bind].
  by destruct (Z.ltb_spec duration 0); [|lia].
Qed.

Lemma Trumpet_negative (frequency : F) (duration sampleRate : Z) :
  sampleRate ≠ 0%Z → (duration < 0)%Z →
  Trumpet.getNote frequency duration sampleRate = Raise ValueError.
Proof.
  intros Hsr Hd.
  unfold Trumpet.getNote, Trumpet.filtered, Trumpet.additive, truediv_int,
    np.linspace.
  destruct (Z.eqb_spec sampleRate 0); [done|]. cbn [mbind Result_bind].
  by destruct (Z.ltb_spec duration 0); [|lia].
Qed.

End Returns.

Section Edges.
Open Scope R_scope.

(** A ring buffer drawn at a frequency that does not exceed the sample rate
    has at least one cell, and the note is what the loop makes of it. *)
Lemma drawn_R (frequency : R) (sampleRate : Z) (rng : RandomState R)
    (buffer0 : list R) :
  0 < frequency → frequency <= IZR sampleRate →
  fst (AcousticGuitar.ringBuffer frequency sampleRate rng) = Ok buffer0 →
  buffer0 ≠ [] ∧
  ∀ duration : Z,
    fst (AcousticGuitar.getNote frequency duration sampleRate rng)
    = AcousticGuitar.pluck buffer0 duration.
Proof.
  intros Hf Hle Hbuf.
  assert (0 < sampleRate)%Z as Hsr by (apply lt_IZR; lra).
  pose proof (proj2 (ring_size_positive frequency sampleRate Hf Hsr) Hle) as Hn.
  destruct (ringBuffer_R frequency sampleRate rng Hf Hsr)
    as (buffer & Hbuf' & _ & Hlen).
  assert (buffer = buffer0) as -> by congruence.
  split; [intros ->; simpl in Hlen; lia|]. intros duration.
  unfold AcousticGuitar.getNote, AcousticGuitar.getBaseStringSound.
  destruct (AcousticGuitar.ringBuffer _ _ _) as [r rng1].
  cbn [fst] in *. by subst r.
Qed.

(** X5.  At sample rate 0 the three instruments fail in two different ways:
    the tone and brass generators raise [ZeroDivisionError] on
    [duration / sampleRate]; the string generator, for a frequency [> 0],
    sizes its ring buffer to [int(0 / frequency) = 0] cells and raises
    [IndexError] on [buffer[0]]. *)
Theorem zero_sample_rate (frequency : R) (duration : Z) (rng : RandomState R) :
  0 < frequency →
  fst (getNote Beep frequency duration 0 rng) = Raise ZeroDivisionError ∧
  fst (getNote Trumpet frequency duration 0 rng) = Raise ZeroDivisionError ∧
  fst (getNote AcousticGuitar frequency duration 0 rng) = Raise IndexError.
Proof.
  intros Hf. split; [done|]. split; [done|].
  cbn [getNote]. unfold AcousticGuitar.getNote, AcousticGuitar.getBaseStringSound.
  rewrite ringBuffer_draws by (done || lia).
  rewrite (Rtrunc_eq (IZR 0 / frequency) 0).
  - done.
  - unfold Rdiv. rewrite Rmult_0_l. lra.
  - unfold Rdiv. rewrite Rmult_0_l. lra.
Qed.

(** X6.  At frequency 0, for a sample rate [> 0] and a duration [>= 0]: the
    tone generator returns silence, [duration] samples equal to 0; the
    string generator raises [ZeroDivisionError] when it sizes its ring
    buffer, and the brass generator raises it when it computes the time
    constant of its filter. *)
Theorem zero_frequency (duration sampleRate : Z) (rng : RandomState R) :
  (0 < sampleRate)%Z → (0 ≤ duration)%Z →
  fst (getNote Beep 0 duration sampleRate rng)
    = Ok (replicate (Z.to_nat duration) 0) ∧
  fst (getNote AcousticGuitar 0 duration sampleRate rng)
    = Raise ZeroDivisionError ∧
  fst (getNote Trumpet 0 duration sampleRate rng) = Raise ZeroDivisionError.
Proof.
  intros Hsr Hd. split_and!.
  - cbn [getNote fst]. unfold Beep.getNote. real_arith.
    rewrite truediv_int_R by lia. real_arith.
    destruct (linspace_returns 0 (IZR duration / IZR sampleRate) duration Hd)
      as [time Htime].
    rewrite Htime. apply linspace_Ok in Htime as [_ <-]. real_arith.
    f_equal. unfold np.sin, scale. rewrite <- list_fmap_compose.
    apply const_fmap. intros i t _. simpl.
    replace (0 * 2 * PI * t) with 0 by lra. apply sin_0.
  - apply string_zero_frequency.
  - cbn [getNote fst]. unfold Trumpet.getNote, Trumpet.filtered.
    destruct (additive_returns (F:=R) 0 duration sampleRate)
      as (samples & -> & _); [lia|done|].
    real_arith. unfold Trumpet.highPass. real_arith.
    replace (PI * 0 * 32) with 0 by lra. by rewrite truediv_R_zero.
Qed.

(** X7.  A negative duration, for a frequency [> 0] that does not exceed the
    sample rate: the tone and brass generators raise [ValueError] (the time
    axis refuses a negative number of points), while the string generator,
    on a call that draws its ring buffer, takes no turn of its loop and
    returns the empty note.  The duration and the sample rate are integers
    that a float holds exactly, up to [2 ^ 53]. *)
Theorem negative_duration (frequency : R) (duration sampleRate : Z)
    (rng : RandomState R) :
  0 < frequency → frequency <= IZR sampleRate → (sampleRate ≤ 2 ^ 53)%Z →
  (- 2 ^ 53 ≤ duration < 0)%Z →
  fst (getNote Beep frequency duration sampleRate rng) = Raise ValueError ∧
  fst (getNote Trumpet frequency duration sampleRate rng) = Raise ValueError ∧
  ∀ buffer0 : list R,
    fst (AcousticGuitar.ringBuffer frequency sampleRate rng) = Ok buffer0 →
    buffer0 ≠ [] ∧
    fst (getNote AcousticGuitar frequency duration sampleRate rng) = Ok [].
Proof.
  intros Hf Hle _ [_ Hd].
  assert (0 < sampleRate)%Z as Hsr by (apply lt_IZR; lra).
  split_and!.
  - cbn [getNote fst]. apply Beep_negative; lia.
  - cbn [getNote fst]. apply Trumpet_negative; lia.
  - intros buffer0 Hbuf.
    destruct (drawn_R frequency sampleRate rng buffer0 Hf Hle Hbuf) as [Hne Hrun].
    split; [done|]. cbn [getNote]. rewrite Hrun.
    by rewrite pluck_no_turn by (done || lia).
Qed.

(** X8.  A duration of 0, for a frequency [> 0] that does not exceed the
    sample rate, itself an integer that a float holds exactly: the tone
    generator returns the empty note, and so does the string generator on a
    call that draws its ring buffer; the brass generator raises
    [IndexError], on the first sample its filter copies. *)
Theorem empty_note (frequency : R) (sampleRate : Z) (rng : RandomState R) :
  0 < frequency → frequency <= IZR sampleRate → (sampleRate ≤ 2 ^ 53)%Z →
  fst (getNote Beep frequency 0 sampleRate rng) = Ok [] ∧
  fst (getNote Trumpet frequency 0 sampleRate rng) = Raise IndexError ∧
  ∀ buffer0 : list R,
    fst (AcousticGuitar.ringBuffer frequency sampleRate rng) = Ok buffer0 →
    buffer0 ≠ [] ∧
    fst (getNote AcousticGuitar frequency 0 sampleRate rng) = Ok [].
Proof.
  intros Hf Hle _.
  assert (0 < sampleRate)%Z as Hsr by (apply lt_IZR; lra).
  assert (0 < IZR sampleRate) by lra.
  split_and!; cycle 2.
  - intros buffer0 Hbuf.
    destruct (drawn_R frequency sampleRate rng buffer0 Hf Hle Hbuf) as [Hne Hrun].
    split; [done|]. cbn [getNote]. rewrite Hrun.
    by rewrite pluck_no_turn by (done || lia).
  - cbn [getNote fst]. unfold Beep.getNote. real_arith.
    by rewrite truediv_int_R by lia.
  - cbn [getNote fst]. unfold Trumpet.getNote, Trumpet.filtered.
    destruct (additive_returns (F:=R) frequency 0 sampleRate)
      as (samples & -> & Hlen); [lia|done|].
    apply nil_length_inv in Hlen as ->.
    real_arith. unfold Trumpet.highPass. real_arith.
    pose proof PI_RGT_0.
    assert (0 < PI * frequency) by (apply Rmult_lt_0_compat; lra).
    rewrite truediv_R by lra. real_arith.
    rewrite truediv_int_R by lia. real_arith.
    assert (0 < 1 / (PI * frequency * 32)) by (apply Rdiv_lt_0_compat; lra).
    assert (0 < Q2R 1 / IZR sampleRate).
    { apply Rdiv_lt_0_compat; [|done]. unfold Q2R. simpl. lra. }
    by rewrite truediv_R by lra.
Qed.

End Edges.

(** ** The tone *)

Section Tone.
Open Scope R_scope.

(** X9.  In exact arithmetic a tone of two samples or more is a sine of
    frequency [frequency * duration / (duration - 1)] sampled at the sample
    rate: the closed time axis stretches every step by
    [duration / (duration - 1)]. *)
Theorem Beep_pitch (frequency : R) (duration sampleRate : Z) :
  sampleRate ≠ 0%Z → (2 ≤ duration)%Z →
  ∃ out, Beep.getNote frequency duration sampleRate = Ok out ∧
    ∀ i : nat, (i < Z.to_nat duration)%nat →
      out !! i =
      Some (sin (2 * PI * (frequency * IZR duration / IZR (duration - 1))
                 * (INR i / IZR sampleRate))).
Proof.
  intros Hsr Hd.
  destruct (Beep_samples frequency duration sampleRate Hsr Hd)
    as (out & Hrun & Hstep & Hlast).
  exists out. split; [done|]. intros i Hi.
  assert (IZR sampleRate ≠ 0) by (by apply not_0_IZR).
  assert (IZR (duration - 1) ≠ 0) by (apply not_0_IZR; lia).
  destruct (decide (i < Z.to_nat duration - 1)%nat) as [Hin|Hend].
  - rewrite Hstep by done. f_equal. f_equal. field. done.
  - assert (i = Z.to_nat duration - 1)%nat as -> by lia.
    rewrite Hlast. f_equal. f_equal.
    replace (INR (Z.to_nat duration - 1)) with (IZR (duration - 1)).
    + field. done.
    + rewrite INR_IZR_INZ. f_equal. lia.
Qed.

(** X10.  In exact arithmetic every sample of a tone lies in [[-1, 1]]. *)
Theorem Beep_bounded (frequency : R) (duration sampleRate : Z) (out : list R) :
  Beep.getNote frequency duration sampleRate = Ok out →
  ∀ (i : nat) (x : R), out !! i = Some x → -1 <= x <= 1.
Proof.
  unfold Beep.getNote. intros Hrun i x Hx. inv_Ok. subst out.
  unfold np.sin in Hx. rewrite list_lookup_fmap in Hx.
  destruct (scale _ _ !! i) as [y|]; [|done]. injection Hx as <-.
  apply SIN_bound.
Qed.

End Tone.

(** ** The stereo frames of an excerpt *)

Section Stereo.
Context {F : Type} `{Arith F} `{Single F}.

Lemma length_duplicateChannel (channel : list F) :
  length (duplicateChannel channel) = length channel.
Proof.
  unfold duplicateChannel.
  rewrite (foldl_snoc (λ sample, (float32 (sample / of_int 2)%fl,
                                  float32 (sample / of_int 2)%fl))).
  apply length_fmap.
Qed.

(** X16.  [duplicateChannel] works sample by sample: the frames of two
    signals played one after the other are the frames of the first followed
    by the frames of the second; in particular no frame depends on the
    samples around it. *)
Theorem duplicateChannel_app (channel1 channel2 : list F) :
  duplicateChannel (channel1 ++ channel2)
  = duplicateChannel channel1 ++ duplicateChannel channel2.
Proof.
  unfold duplicateChannel.
  rewrite !(foldl_snoc (λ sample, (float32 (sample / of_int 2)%fl,
                                   float32 (sample / of_int 2)%fl))).
  simpl. apply fmap_app.
Qed.

(** [matchNotes] never reads the samples of the excerpt it is given:
    whatever replaces them, the outcome and the random source it leaves are
    the same.  Only the length of the excerpt counts. *)
Lemma matchNotes_ignores_samples `{Trig F} {A B : Type} (self : Instrument)
    (fileData : list A) (g : A → B) (sampleRate : Z) (rng : RandomState F) :
  matchNotes self (g <$> fileData) sampleRate rng
  = matchNotes self fileData sampleRate rng.
Proof. unfold matchNotes. by rewrite length_fmap. Qed.

(** X17.  Whenever [matchNotes] returns, the instrument has returned a note
    at 440 Hz for the length of the excerpt, and [matchNotes] returns one
    stereo frame per sample of the excerpt, frame [i] holding in both
    channels the sample [i] of that note, halved and cast to single
    precision.  On the tone generator it returns for every excerpt and every
    sample rate but 0. *)
Theorem matchNotes_frames `{Trig F} {A : Type} (self : Instrument)
    (fileData : list A) (sampleRate : Z) (rng : RandomState F) :
  (∀ frames,
     fst (matchNotes self fileData sampleRate rng) = Ok frames →
     ∃ samples,
       fst (getNote self (of_int 440) (Z.of_nat (length fileData))
                    sampleRate rng) = Ok samples ∧
       length frames = length fileData ∧
       ∀ i : nat,
         frames !! i
         = (λ sample, (float32 (sample / of_int 2)%fl,
                       float32 (sample / of_int 2)%fl)) <$> samples !! i) ∧
  (sampleRate ≠ 0%Z →
   ∃ frames, fst (matchNotes Beep fileData sampleRate rng) = Ok frames).
Proof.
  unfold matchNotes. split.
  - intros frames Hrun.
    destruct (getNote self _ _ _ rng) as [samples rng'] eqn:Hnote.
    cbn [fst] in Hrun. inv_Ok. subst frames samples.
    match goal with Hn : getNote _ _ _ _ _ = (Ok ?x, _) |- _ =>
      rename x into samples end.
    exists samples. split; [done|]. split.
    + rewrite length_duplicateChannel.
      assert (length samples = Z.to_nat (Z.of_nat (length fileData))) as ->;
        [|lia].
      destruct self; cbn [getNote] in Hnote.
      * injection Hnote as Hnote _.
        by apply Beep_getNote_length in Hnote as [_ ?].
      * by eapply AcousticGuitar_getNote_length.
      * injection Hnote as Hnote _.
        by apply Trumpet_getNote_length in Hnote as [_ ?].
    + intros i. unfold duplicateChannel.
      rewrite (foldl_snoc (λ sample, (float32 (sample / of_int 2)%fl,
                                      float32 (sample / of_int 2)%fl))).
      apply list_lookup_fmap.
  - intros Hsr. cbn [getNote].
    destruct (Beep_returns (of_int 440) (Z.of_nat (length fileData)) sampleRate)
      as [samples ->]; [done|lia|].
    by eexists.
Qed.

End Stereo.

(** ** The harmonic sum *)

Section Harmonics.
Open Scope R_scope.

Lemma Rsum_snoc (l : list R) (a : R) : Rsum (l ++ [a]) = Rsum l + a.
Proof. induction l as [|x l IH]; simpl; [lra|]. rewrite IH. lra. Qed.

Lemma envelope_nonneg : Forall (λ a, 0 <= Q2R a) Trumpet.envelope.
Proof. unfold Trumpet.envelope. repeat constructor; unfold Q2R; simpl; lra. Qed.

(** The 19 amplitudes add up to 19.61. *)
Lemma envelope_sum : Rsum (Q2R <$> Trumpet.envelope) = 19.61.
Proof. unfold Trumpet.envelope, Rsum, Q2R. simpl. lra. Qed.

(** A partial of amplitude [a] stays within [a] of zero. *)
Lemma partial_bounded (frequency : R) (time : list R) (i : nat) (amplitude : Q) :
  0 <= Q2R amplitude →
  Forall (λ p, Rabs p <= Q2R amplitude)
         (Trumpet.partial frequency time i amplitude).
Proof.
  intros Ha. apply Forall_lookup. intros j p Hp.
  rewrite lookup_partial in Hp. destruct (time !! j) as [t|]; [|done].
  injection Hp as <-. apply Rabs_le.
  pose proof (SIN_bound (frequency * IZR (Z.of_nat i + 1) * 2 * PI * t)).
  split; nra.
Qed.

(** [samples += partial] moves every sample by at most the bound of the
    partial. *)
Lemma inplace_add_bounded (a b c : list R) (M N : R) :
  np.inplace Rplus a b = Ok c →
  Forall (λ x, Rabs x <= M) a → Forall (λ p, Rabs p <= N) b →
  Forall (λ x, Rabs x <= M + N) c.
Proof.
  intros Hrun Ha Hb. apply Forall_lookup. intros j z Hz.
  assert (∃ x p, z = x + p ∧ Rabs x <= M ∧ Rabs p <= N) as (x & p & -> & Hx & Hp).
  { unfold np.inplace in Hrun. destruct (decide (length b = length a)).
    - injection Hrun as <-.
      apply lookup_zip_with_Some in Hz as (x & p & -> & Hx & Hp).
      exists x, p. split; [done|]. split.
      + by apply (proj1 (Forall_lookup _ a) Ha j).
      + by apply (proj1 (Forall_lookup _ b) Hb j).
    - destruct b as [|b0 [|]]; [done| |done]. injection Hrun as <-.
      rewrite list_lookup_fmap in Hz. destruct (a !! j) as [x|] eqn:Hx; [|done].
      injection Hz as <-. exists x, b0. split; [done|]. split.
      + by apply (proj1 (Forall_lookup _ a) Ha j).
      + by apply (proj1 (Forall_lookup _ [b0]) Hb 0%nat). }
  eapply Rle_trans; [apply Rabs_triang|]. lra.
Qed.

(** X11.  In exact arithmetic every sample of the harmonic sum of the brass
    generator lies within 19.61 of zero, the sum of the 19 amplitudes of its
    table, whatever the frequency, the duration and the sample rate. *)
Theorem additive_bounded (frequency : R) (duration sampleRate : Z)
    (samples : list R) :
  Trumpet.additive frequency duration sampleRate = Ok samples →
  ∀ (j : nat) (x : R), samples !! j = Some x → Rabs x <= 19.61.
Proof.
  unfold Trumpet.additive. intros Hrun j x Hx. inv_Ok.
  match goal with Hz : np.zeros _ = Ok _ |- _ =>
    apply full_Ok in Hz as [_ ->] end.
  apply (for_invariant
           (λ k s, Forall (λ x, Rabs x <= Rsum (Q2R <$> take k Trumpet.envelope))
                          s)) in Hrun.
  - rewrite length_imap, firstn_all, envelope_sum in Hrun.
    by apply (proj1 (Forall_lookup _ samples) Hrun j).
  - apply Forall_replicate. simpl. rewrite Rabs_R0. lra.
  - intros k [i amplitude] s s' Hk Hs Hstep.
    rewrite list_lookup_imap in Hk.
    destruct (Trumpet.envelope !! k) as [a|] eqn:Ha; [|done].
    injection Hk as <- <-.
    rewrite (take_S_r _ _ _ Ha), fmap_app.
    change (Q2R <$> [a]) with [Q2R a]. rewrite Rsum_snoc.
    eapply inplace_add_bounded; [done..|].
    apply partial_bounded.
    by apply (proj1 (Forall_lookup _ _) envelope_nonneg k).
Qed.

End Harmonics.

(** ** The high-pass filter *)

Section FilterLoop.
Context {F : Type} `{Arith F}.

(** The loop of the filter writes each cell once, from the cell it wrote the
    turn before. *)
Lemma highPass_loop (a : F) (samples init : list F) (duration : Z) :
  length samples = Z.to_nat duration →
  length init = Z.to_nat duration →
  ∃ newSamples,
    for_ (range 1 duration) (Trumpet.highPassStep a samples) init
      = Ok newSamples ∧
    length newSamples = Z.to_nat duration ∧
    newSamples !! 0 = init !! 0 ∧
    ∀ i : nat, 1 ≤ i < Z.to_nat duration →
      ∃ y1 x x1,
        newSamples !! (i - 1) = Some y1 ∧
        samples !! i = Some x ∧ samples !! (i - 1) = Some x1 ∧
        newSamples !! i = Some (a * (y1 + x - x1))%fl.
Proof.
  intros Hsamples Hinit.
  destruct (for_returns
    (λ k s, length s = Z.to_nat duration ∧ s !! 0 = init !! 0 ∧
            ∀ i : nat, 1 ≤ i ≤ k →
              ∃ y1 x x1,
                s !! (i - 1) = Some y1 ∧
                samples !! i = Some x ∧ samples !! (i - 1) = Some x1 ∧
                s !! i = Some (a * (y1 + x - x1))%fl)
    (Trumpet.highPassStep a samples) (range 1 duration) init)
    as (newSamples & Hrun & Hlen & Hhead & Hrec).
  - split; [done|]. split; [done|]. intros i Hi. lia.
  - intros k i s Hi (Hlen & Hhead & Hrec). apply lookup_range in Hi as [-> Hi].
    unfold Trumpet.highPassStep.
    destruct (getitem_lt s (1 + k - 1)) as (y1 & -> & Hy1); [lia|].
    destruct (getitem_lt samples (1 + k)) as (x & -> & Hx); [lia|].
    destruct (getitem_lt samples (1 + k - 1)) as (x1 & -> & Hx1); [lia|].
    cbn [mbind Result_bind]. unfold setitem. rewrite decide_True by lia.
    eexists. split; [done|]. rewrite length_insert. split; [done|].
    split; [by rewrite list_lookup_insert_ne by lia|].
    intros i Hi'. destruct (decide (i = 1 + k)) as [->|Hne].
    + exists y1, x, x1. rewrite list_lookup_insert_ne by lia.
      split_and!; [done..|]. apply list_lookup_insert_eq. lia.
    + destruct (Hrec i) as (y1' & x' & x1' & ? & ? & ? & ?); [lia|].
      exists y1', x', x1'. by rewrite !list_lookup_insert_ne by lia.
  - exists newSamples. split_and!; [done..|].
    intros i Hi. apply Hrec. rewrite length_range. lia.
Qed.

End FilterLoop.

Section Filter.
Open Scope R_scope.

Lemma alpha_range (frequency : R) (sampleRate : Z) :
  0 < frequency → (0 < sampleRate)%Z → 0 < alpha frequency sampleRate < 1.
Proof.
  intros Hf Hsr. unfold alpha.
  assert (0 < IZR sampleRate) by by apply IZR_lt.
  pose proof PI_RGT_0.
  assert (0 < PI * frequency) by (apply Rmult_lt_0_compat; lra).
  assert (0 < 1 / (PI * frequency * 32)) by (apply Rdiv_lt_0_compat; lra).
  assert (0 < 1 / IZR sampleRate) by (apply Rdiv_lt_0_compat; lra).
  split.
  - apply Rdiv_lt_0_compat; lra.
  - apply (Rmult_lt_reg_r (1 / (PI * frequency * 32) + 1 / IZR sampleRate));
      [lra|].
    unfold Rdiv at 1. rewrite Rmult_assoc, Rinv_l; lra.
Qed.

(** The filter is its loop, run on [zeros(duration)] with the first input
    sample copied into its first cell. *)
Lemma highPass_unfold (frequency : R) (duration sampleRate : Z)
    (samples : list R) (s0 : R) :
  0 < frequency → (0 < sampleRate)%Z → (1 ≤ duration)%Z →
  samples !! 0%nat = Some s0 →
  Trumpet.highPass frequency duration sampleRate samples
  = for_ (range 1 duration)
         (Trumpet.highPassStep (alpha frequency sampleRate) samples)
         (<[0%nat := s0]> (replicate (Z.to_nat duration) 0)).
Proof.
  intros Hf Hsr Hd Hs0. unfold Trumpet.highPass, alpha.
  assert (0 < IZR sampleRate) by by apply IZR_lt.
  pose proof PI_RGT_0.
  assert (0 < PI * frequency) by (apply Rmult_lt_0_compat; lra).
  assert (0 < 1 / (PI * frequency * 32)) by (apply Rdiv_lt_0_compat; lra).
  assert (0 < 1 / IZR sampleRate) by (apply Rdiv_lt_0_compat; lra).
  real_arith. replace (Q2R 1.0) with 1 by (unfold Q2R; simpl; lra).
  rewrite truediv_R by lra. real_arith.
  rewrite truediv_int_R by lia. real_arith.
  rewrite truediv_R by lra. real_arith.
  unfold np.zeros, np.full. destruct (Z.ltb_spec duration 0); [lia|].
  real_arith. apply getitem_Ok in Hs0. rewrite Hs0. real_arith.
  unfold setitem at 1. rewrite decide_True by (rewrite length_replicate; lia).
  done.
Qed.

(** X12.  In exact arithmetic, for a frequency [> 0], a sample rate [> 0] and
    an input of [duration >= 1] samples, the filter of the brass generator
    returns the signal of the recurrence
    [y[0] = x[0]], [y[i] = alpha * (y[i-1] + x[i] - x[i-1])], with a
    coefficient [alpha] strictly between 0 and 1. *)
Theorem highPass_recurrence (frequency : R) (duration sampleRate : Z)
    (samples : list R) :
  0 < frequency → (0 < sampleRate)%Z → (1 ≤ duration)%Z →
  length samples = Z.to_nat duration →
  ∃ newSamples,
    Trumpet.highPass frequency duration sampleRate samples = Ok newSamples ∧
    0 < alpha frequency sampleRate < 1 ∧
    newSamples !! 0%nat = samples !! 0%nat ∧
    ∀ i : nat, (1 ≤ i < Z.to_nat duration)%nat →
      ∃ y1 x x1,
        newSamples !! (i - 1)%nat = Some y1 ∧
        samples !! i = Some x ∧ samples !! (i - 1)%nat = Some x1 ∧
        newSamples !! i = Some (alpha frequency sampleRate * (y1 + x - x1)).
Proof.
  intros Hf Hsr Hd Hlen.
  destruct (lookup_lt_is_Some_2 samples 0%nat) as [s0 Hs0]; [lia|].
  rewrite (highPass_unfold frequency duration sampleRate samples s0) by done.
  destruct (highPass_loop (alpha frequency sampleRate) samples
              (<[0%nat := s0]> (replicate (Z.to_nat duration) 0)) duration)
    as (newSamples & Hrun & _ & Hhead & Hrec).
  - done.
  - by rewrite length_insert, length_replicate.
  - exists newSamples. split_and!; [done|by apply alpha_range..| |done].
    rewrite Hhead, Hs0. apply list_lookup_insert_eq.
    rewrite length_replicate. lia.
Qed.

(** X13.  In exact arithmetic the filter of the brass generator removes a
    constant: on an input that is [c] everywhere, its output decays
    geometrically from [c], sample [i] being [alpha ^ i * c]. *)
Theorem highPass_constant (frequency c : R) (duration sampleRate : Z) :
  0 < frequency → (0 < sampleRate)%Z → (1 ≤ duration)%Z →
  ∃ newSamples,
    Trumpet.highPass frequency duration sampleRate
      (replicate (Z.to_nat duration) c) = Ok newSamples ∧
    ∀ i : nat, (i < Z.to_nat duration)%nat →
      newSamples !! i = Some (alpha frequency sampleRate ^ i * c).
Proof.
  intros Hf Hsr Hd.
  assert (replicate (Z.to_nat duration) c !! 0%nat = Some c) as Hc
    by (apply lookup_replicate_2; lia).
  rewrite (highPass_unfold frequency duration sampleRate _ c) by done.
  destruct (highPass_loop (alpha frequency sampleRate)
              (replicate (Z.to_nat duration) c)
              (<[0%nat := c]> (replicate (Z.to_nat duration) 0)) duration)
    as (newSamples & Hrun & _ & Hhead & Hrec).
  - by rewrite length_replicate.
  - by rewrite length_insert, length_replicate.
  - exists newSamples. split; [done|]. intros i. induction i as [|i IH].
    + intros _. rewrite Hhead, list_lookup_insert_eq
        by (rewrite length_replicate; lia).
      f_equal. simpl. lra.
    + intros Hi. destruct (Hrec (S i)) as (y1 & x & x1 & Hy1 & Hx & Hx1 & ->);
        [lia|].
      replace (S i - 1)%nat with i in * by lia.
      rewrite IH in Hy1 by lia. injection Hy1 as <-.
      apply lookup_replicate in Hx as [-> _].
      apply lookup_replicate in Hx1 as [-> _].
      f_equal. real_arith. simpl. lra.
Qed.

End Filter.

(** ** The envelope *)

Section EnvelopeRange.
Open Scope R_scope.

(** The points of a time axis lie between its two ends. *)
Lemma linspace_R_between (start stop lo hi : R) (num : Z) (l : list R) :
  lo <= start <= hi → lo <= stop <= hi →
  np.linspace start stop num = Ok l →
  Forall (λ v, lo <= v <= hi) l.
Proof.
  intros Hstart Hstop Hrun.
  destruct (Z.lt_ge_cases num 2) as [Hsmall|Hlarge].
  - unfold np.linspace in Hrun. destruct (Z.ltb_spec num 0); [done|].
    destruct (Z.ltb_spec 0 (num - 1)); [lia|].
    destruct (Z.ltb_spec 1 num); [lia|]. injection Hrun as <-.
    assert (num = 0 ∨ num = 1)%Z as [-> | ->] by lia; [by apply Forall_nil|].
    apply Forall_singleton. real_arith. change (Z.of_nat 0) with 0%Z. lra.
  - destruct (linspace_R start stop num Hlarge)
      as (l' & Hl' & Hlen & Hstep & Hlast).
    rewrite Hrun in Hl'. injection Hl' as <-.
    apply Forall_lookup. intros i v Hv.
    apply lookup_lt_Some in Hv as Hi. rewrite Hlen in Hi.
    destruct (decide (i < Z.to_nat num - 1)%nat) as [Hin|Hend].
    + rewrite Hstep in Hv by done. injection Hv as <-.
      assert (0 < IZR (num - 1)) as HD by (apply IZR_lt; lia).
      assert (0 <= INR i <= IZR (num - 1)) as HI.
      { split; [apply pos_INR|]. rewrite INR_IZR_INZ. apply IZR_le. lia. }
      set (u := (stop - start) / IZR (num - 1)).
      assert (u * IZR (num - 1) = stop - start) as Hu
        by (unfold u; field; lra).
      destruct (Rle_dec 0 u); split; nra.
    + assert (i = Z.to_nat num - 1)%nat as -> by lia.
      rewrite Hlast in Hv. by injection Hv as <-.
Qed.

(** The coefficients of the ADSR curve lie between 0 and its peak. *)
Lemma adsr_range (a d s r : Z) (adsr : list R) :
  Trumpet.adsr a d s r = Ok adsr → Forall (λ v, 0 <= v <= 0.1) adsr.
Proof.
  unfold Trumpet.adsr. intros Hrun. inv_Ok. subst adsr.
  assert (Trumpet.peak = 0.1) as Hpeak
    by (unfold Trumpet.peak; real_arith; unfold Q2R; simpl; lra).
  assert (Trumpet.sustain = 0.08) as Hsustain
    by (unfold Trumpet.sustain; rewrite Hpeak; real_arith; unfold Q2R;
        simpl; lra).
  rewrite Hpeak, Hsustain in *. real_arith.
  match goal with Hf : np.full _ _ = Ok _ |- _ =>
    apply full_Ok in Hf as [_ ->] end.
  unfold np.append. repeat apply Forall_app_2.
  - eapply linspace_R_between; [| |done]; lra.
  - eapply linspace_R_between; [| |done]; lra.
  - apply Forall_replicate. lra.
  - eapply linspace_R_between; [| |done]; lra.
Qed.

(** X14.  In exact arithmetic, on a note long enough for its envelope
    (sustain length [>= 0]), the brass generator scales every filtered
    sample by a coefficient between 0 and 0.1: no sample of the note exceeds
    a tenth of the filtered sample of its index. *)
Theorem Trumpet_attenuated (frequency : R)
    (duration sampleRate attackLength decayLength sustainLength releaseLength : Z) :
  0 < frequency → (0 < sampleRate)%Z → (1 ≤ duration)%Z →
  Trumpet.lengths (F:=R) duration sampleRate
    = Ok (attackLength, decayLength, sustainLength, releaseLength) →
  (0 ≤ sustainLength)%Z →
  ∃ samples out,
    Trumpet.filtered frequency duration sampleRate = Ok samples ∧
    Trumpet.getNote frequency duration sampleRate = Ok out ∧
    ∀ (i : nat) (x y : R),
      samples !! i = Some x → out !! i = Some y → Rabs y <= 0.1 * Rabs x.
Proof.
  intros Hf Hsr Hd Hlengths Hs.
  destruct (Trumpet_run frequency duration sampleRate Hf Hsr Hd)
    as (harmonics & samples & a & d & r & _ & _ & Hfiltered & _
        & Hlengths' & _ & _ & _ & _ & Hlong).
  rewrite Hlengths in Hlengths'. injection Hlengths' as -> -> -> ->.
  destruct (Hlong Hs) as (adsr & Hadsr & Hrun & _).
  exists samples, (zip_with Rmult samples adsr). split_and!; [done..|].
  intros i x y Hx Hy.
  apply lookup_zip_with_Some in Hy as (x' & v & -> & Hx' & Hv).
  assert (x' = x) as -> by congruence.
  pose proof (proj1 (Forall_lookup _ _) (adsr_range _ _ _ _ _ Hadsr) i v Hv)
    as Hrange.
  rewrite Rabs_mult, (Rabs_pos_eq v) by lra.
  pose proof (Rabs_pos x). nra.
Qed.

(** X15.  In exact arithmetic a note long enough for its envelope, with a
    release segment of two points or more, ends in silence: its last sample
    is 0. *)
Theorem Trumpet_fade_out (frequency : R)
    (duration sampleRate attackLength decayLength sustainLength releaseLength : Z) :
  0 < frequency → (0 < sampleRate)%Z → (1 ≤ duration)%Z →
  Trumpet.lengths (F:=R) duration sampleRate
    = Ok (attackLength, decayLength, sustainLength, releaseLength) →
  (0 ≤ sustainLength)%Z → (2 ≤ releaseLength)%Z →
  ∃ out,
    Trumpet.getNote frequency duration sampleRate = Ok out ∧
    out !! (Z.to_nat duration - 1)%nat = Some 0.
Proof.
  intros Hf Hsr Hd Hlengths Hs Hr2.
  destruct (Trumpet_run frequency duration sampleRate Hf Hsr Hd)
    as (harmonics & samples & a & d & r & _ & _ & Hfiltered & _
        & Hlengths' & Ha & Hdl & Hr & _ & Hlong).
  rewrite Hlengths in Hlengths'. injection Hlengths' as -> -> -> ->.
  destruct (Hlong Hs) as (adsr & Hadsr & Hrun & Hlen & _).
  apply filtered_length in Hfiltered as [_ Hsamples].
  destruct (adsr_Ok (F:=R) a d (duration - a - d - r) r Ha Hdl Hs Hr)
    as (attack & decay & release & Hattack & Hdecay & Hrelease & Hadsr').
  rewrite Hadsr' in Hadsr. injection Hadsr as <-.
  destruct (linspace_R Trumpet.sustain 0 r Hr2) as (l & Hl & Hll & _ & Hlast).
  real_arith. rewrite Hrelease in Hl. injection Hl as <-.
  exists (zip_with Rmult samples
            (((attack ++ decay)
              ++ replicate (Z.to_nat (duration - a - d - r)) Trumpet.sustain)
             ++ release)).
  split; [done|].
  destruct (lookup_lt_is_Some_2 samples (Z.to_nat duration - 1)%nat) as [x Hx];
    [lia|].
  pose proof (linspace_Ok _ _ _ _ Hattack) as [_ Hla].
  pose proof (linspace_Ok _ _ _ _ Hdecay) as [_ Hld].
  assert (length ((attack ++ decay)
                  ++ replicate (Z.to_nat (duration - a - d - r)) Trumpet.sustain)
          = (Z.to_nat duration - Z.to_nat r)%nat) as Hprefix
    by (rewrite !length_app, length_replicate; lia).
  rewrite lookup_zip_with, Hx. cbn [mbind option_bind].
  rewrite lookup_app_r by lia. rewrite Hprefix.
  replace (Z.to_nat duration - 1 - (Z.to_nat duration - Z.to_nat r))%nat
    with (Z.to_nat r - 1)%nat by lia.
  rewrite Hlast. simpl. f_equal. lra.
Qed.

End EnvelopeRange.

(** ** The further properties at concrete inputs *)

Section FurtherInputs.
Open Scope R_scope.

(** Seven turns round a ring of three cells, in double precision. *)
Lemma string_loop_invariant_witness :
  [of_int 1; of_int 2; of_int 3] !! 0%nat = Some (of_int 1 : float) ∧
  ∃ st : AcousticGuitar.Pluck (F:=float),
    for_ (range 0 (Z.of_nat 7)) (λ _, AcousticGuitar.tick)
         (AcousticGuitar.mkPluck [] [of_int 1; of_int 2; of_int 3] (of_int 1)
                                 (Queue_.new 200) 0) = Ok st ∧
    AcousticGuitar.bufferCounter st = 1%nat ∧
    length (AcousticGuitar.samples st) = 7%nat.
Proof.
  split; [reflexivity|].
  destruct (string_loop_invariant (F:=float)
              [of_int 1; of_int 2; of_int 3] (of_int 1) 7 eq_refl)
    as (st & Hrun & _ & Hc & Hout & _).
  exists st. split; [exact Hrun|]. split; [exact Hc|exact Hout].
Defined.

(** The A above middle C at 44100 Hz, in double precision, over 201
    samples: the last one echoes the first. *)
Lemma string_echo_witness :
  fst (AcousticGuitar.ringBuffer (of_int 440) 44100 ramp)
    = Ok (ramp <$> seq 0 100) ∧
  ramp <$> seq 0 100 ≠ [] ∧ (200 ≤ 200)%nat ∧ (Z.of_nat 200 < 201)%Z ∧
  ∃ out filtered delayed,
    fst (AcousticGuitar.getNote (of_int 440) 201 44100 ramp) = Ok out ∧
    out !! 0%nat = Some delayed ∧
    out !! 200%nat
    = Some ((filtered + delayed * of_Q 0.999) / of_int 2)%fl.
Proof.
  assert (fst (AcousticGuitar.ringBuffer (of_int 440) 44100 ramp)
          = Ok (ramp <$> seq 0 100)) as Hbuf by (vm_compute; reflexivity).
  split_and!; [exact Hbuf|done|lia|lia|].
  destruct (string_echo (of_int 440) 201 44100 ramp (ramp <$> seq 0 100) 200
              Hbuf ltac:(done) ltac:(lia) ltac:(lia))
    as (out & _ & _ & filtered & delayed & Hrun & _ & _ & _ & Hdelayed & Hout).
  exists out, filtered, delayed.
  split; [exact Hrun|]. split; [exact Hdelayed|exact Hout].
Defined.

Lemma square_bounded (k : nat) : Rabs (square k) <= 1.
Proof.
  unfold square. destruct (Nat.even k); apply Rabs_le; lra.
Qed.

(** On draws that are 1 or -1 no sample of the string leaves [[-1, 1]]. *)
Lemma string_bounded_witness :
  (∀ k, Rabs (square k) <= 1) ∧
  ∃ out,
    fst (AcousticGuitar.getNote 440 44100 44100 square) = Ok out ∧
    ∀ (i : nat) (x : R), out !! i = Some x → Rabs x <= 1.
Proof.
  split; [apply square_bounded|].
  destruct (string_note_R 440 44100 44100 square) as (out & Hrun & _);
    [lra|lra|].
  exists out. split; [assumption|].
  exact (string_bounded 440 44100 44100 square 1 out square_bounded Hrun).
Defined.


Lemma zero_sample_rate_witness :
  0 < 440 ∧
  fst (getNote AcousticGuitar 440 44100 0 count) = Raise IndexError.
Proof.
  split; [lra|]. apply (zero_sample_rate 440 44100 count). lra.
Defined.

Lemma zero_frequency_witness :
  (0 < 44100)%Z ∧ (0 ≤ 3)%Z ∧
  fst (getNote Beep 0 3 44100 count) = Ok [0; 0; 0].
Proof.
  split_and!; [lia|lia|].
  apply (zero_frequency 3 44100 count); lia.
Defined.

(** At 440 Hz and 44100 Hz, for a duration of -1: the tone generator
    refuses it, the string generator returns the empty note. *)
Lemma negative_duration_witness :
  0 < 440 ∧ 440 <= IZR 44100 ∧ (44100 ≤ 2 ^ 53)%Z ∧ (- 2 ^ 53 ≤ -1 < 0)%Z ∧
  fst (getNote Beep 440 (-1) 44100 count) = Raise ValueError ∧
  fst (AcousticGuitar.ringBuffer 440 44100 count) = Ok (count <$> seq 0 100) ∧
  fst (getNote AcousticGuitar 440 (-1) 44100 count) = Ok [].
Proof.
  assert (44100 ≤ 2 ^ 53)%Z as Hsr by lia.
  assert (- 2 ^ 53 ≤ -1 < 0)%Z as Hd by lia.
  destruct (negative_duration 440 (-1) 44100 count) as (Htone & _ & Hstring);
    [lra|lra|exact Hsr|exact Hd|].
  destruct (Hstring (count <$> seq 0 100) ring_of_100) as [_ Hnote].
  split; [lra|]. split; [lra|]. split; [exact Hsr|]. split; [exact Hd|].
  split; [exact Htone|]. split; [exact ring_of_100|exact Hnote].
Defined.

(** At 440 Hz and 44100 Hz, for a duration of 0: the brass generator raises,
    the string generator returns the empty note. *)
Lemma empty_note_witness :
  0 < 440 ∧ 440 <= IZR 44100 ∧ (44100 ≤ 2 ^ 53)%Z ∧
  fst (getNote Trumpet 440 0 44100 count) = Raise IndexError ∧
  fst (AcousticGuitar.ringBuffer 440 44100 count) = Ok (count <$> seq 0 100) ∧
  fst (getNote AcousticGuitar 440 0 44100 count) = Ok [].
Proof.
  assert (44100 ≤ 2 ^ 53)%Z as Hsr by lia.
  destruct (empty_note 440 44100 count) as (_ & Hbrass & Hstring);
    [lra|lra|exact Hsr|].
  destruct (Hstring (count <$> seq 0 100) ring_of_100) as [_ Hnote].
  split; [lra|]. split; [lra|]. split; [exact Hsr|].
  split; [exact Hbrass|]. split; [exact ring_of_100|exact Hnote].
Defined.

(** One second at 44100 Hz: the pitch is 440 * 44100 / 44099 Hz. *)
Lemma Beep_pitch_witness :
  44100%Z ≠ 0%Z ∧ (2 ≤ 44100)%Z ∧
  ∃ out, Beep.getNote 440 44100 44100 = Ok out ∧
    ∀ i : nat, (i < Z.to_nat 44100)%nat →
      out !! i =
      Some (sin (2 * PI * (440 * IZR 44100 / IZR (44100 - 1))
                 * (INR i / IZR 44100))).
Proof.
  split_and!; [lia|lia|].
  apply (Beep_pitch 440 44100 44100); lia.
Defined.

Lemma Beep_bounded_witness :
  ∃ out, Beep.getNote 440 3 44100 = Ok out ∧
    ∀ (i : nat) (x : R), out !! i = Some x → -1 <= x <= 1.
Proof.
  destruct (Beep_returns (F:=R) 440 3 44100) as [out Hrun]; [lia|lia|].
  exists out. split; [assumption|].
  exact (Beep_bounded 440 3 44100 out Hrun).
Defined.

Lemma additive_bounded_witness :
  ∃ samples, Trumpet.additive 440 3 44100 = Ok samples ∧
    ∀ (j : nat) (x : R), samples !! j = Some x → Rabs x <= 19.61.
Proof.
  destruct (additive_returns (F:=R) 440 3 44100) as (samples & Hrun & _);
    [lia|lia|].
  exists samples. split; [assumption|].
  exact (additive_bounded 440 3 44100 samples Hrun).
Defined.

Lemma highPass_recurrence_witness :
  0 < 440 ∧ (0 < 44100)%Z ∧ (1 ≤ 3)%Z ∧
  length [1; 2; 4] = Z.to_nat 3 ∧
  ∃ newSamples,
    Trumpet.highPass 440 3 44100 [1; 2; 4] = Ok newSamples ∧
    newSamples !! 0%nat = Some 1.
Proof.
  split_and!; [lra|lia|lia|reflexivity|].
  destruct (highPass_recurrence 440 3 44100 [1; 2; 4])
    as (newSamples & Hrun & _ & Hhead & _); [lra|lia|lia|reflexivity|].
  exists newSamples. split; assumption.
Defined.

Lemma highPass_constant_witness :
  0 < 440 ∧ (0 < 44100)%Z ∧ (1 ≤ 3)%Z ∧
  ∃ newSamples,
    Trumpet.highPass 440 3 44100 (replicate (Z.to_nat 3) 5) = Ok newSamples ∧
    ∀ i : nat, (i < Z.to_nat 3)%nat →
      newSamples !! i = Some (alpha 440 44100 ^ i * 5).
Proof.
  split_and!; [lra|lia|lia|].
  apply (highPass_constant 440 5 3 44100); [lra|lia|lia].
Defined.

Lemma Trumpet_attenuated_witness :
  0 < 440 ∧ (0 < 44100)%Z ∧ (1 ≤ 88200)%Z ∧
  Trumpet.lengths (F:=R) 88200 44100 = Ok (3307, 13230, 62843, 8820)%Z ∧
  (0 ≤ 62843)%Z ∧
  ∃ samples out,
    Trumpet.filtered 440 88200 44100 = Ok samples ∧
    Trumpet.getNote 440 88200 44100 = Ok out ∧
    ∀ (i : nat) (x y : R),
      samples !! i = Some x → out !! i = Some y → Rabs y <= 0.1 * Rabs x.
Proof.
  pose proof (lengths_44100 88200) as Hlengths.
  split_and!; [lra|lia|lia|exact Hlengths|lia|].
  apply (Trumpet_attenuated 440 88200 44100 3307 13230 62843 8820);
    [lra|lia|lia|exact Hlengths|lia].
Defined.

Lemma Trumpet_fade_out_witness :
  0 < 440 ∧ (0 < 44100)%Z ∧ (1 ≤ 88200)%Z ∧
  Trumpet.lengths (F:=R) 88200 44100 = Ok (3307, 13230, 62843, 8820)%Z ∧
  (0 ≤ 62843)%Z ∧ (2 ≤ 8820)%Z ∧
  ∃ out,
    Trumpet.getNote 440 88200 44100 = Ok out ∧
    out !! (Z.to_nat 88200 - 1)%nat = Some 0.
Proof.
  pose proof (lengths_44100 88200) as Hlengths.
  split_and!; [lra|lia|lia|exact Hlengths|lia|lia|].
  apply (Trumpet_fade_out 440 88200 44100 3307 13230 62843 8820);
    [lra|lia|lia|exact Hlengths|lia|lia].
Defined.

End FurtherInputs.
